(** * ImageView: the in-memory image view of vw/Image/ImageView.h

    A shallow embedding of [vw::ImageView<PixelT>] and of the reference
    counted buffer ([boost::shared_array<PixelT>]) it points into.

    Integer model (LP64): [unsigned] is a 32-bit integer whose products wrap
    modulo 2^32 ([umul]); [int] is a 32-bit signed integer ([is_int]);
    [ptrdiff_t] is 64 bits wide, so an [unsigned] converts to it unchanged.
    Pointer offsets are kept in [Z]: an offset that leaves its block is an
    invalid access whatever its size, and [load]/[store] report it as such.

    Memory model: the free store is a list of blocks indexed by block
    number; a block handed back by [delete[]] is replaced by [None] and its
    number is never used again.  [new PixelT[n]] is taken to succeed. *)

From Stdlib Require Import ZArith Lia.
From stdpp Require Import base option list.

Local Open Scope Z_scope.

(** ** Machine integers *)

Definition wrap_unsigned (z : Z) : Z := z mod 2 ^ 32.

(** Product of two [unsigned] values. *)
Definition umul (a b : Z) : Z := wrap_unsigned (a * b).

Definition is_unsigned (z : Z) : Prop := 0 <= z < 2 ^ 32.

Definition is_int (z : Z) : Prop := - 2 ^ 31 <= z < 2 ^ 31.

(** ** Pixel types and storage cells *)

(** What [set_size] needs to know about [PixelT]: whether
    [boost::is_fundamental<PixelT>] holds, and what [new PixelT[n]] leaves
    in each element.  [Fundamental] stands for the arithmetic types,
    [Pod] for a trivially-copyable struct without constructors (the
    "custom POD pixel type" of the comment in [set_size]), [Class d] for a
    class whose default constructor produces the value [d]. *)
Inductive pixel_type : Type :=
  | Fundamental
  | Pod
  | Class (d : Z).

Definition is_fundamental (T : pixel_type) : bool :=
  match T with Fundamental => true | _ => false end.

Definition trivially_copyable (T : pixel_type) : bool :=
  match T with Fundamental | Pod => true | Class _ => false end.

(** A storage cell holds a pixel value or is indeterminate (never
    initialised). *)
Inductive cell : Type :=
  | Indet
  | Val (x : Z).

(** Default-initialisation, as performed by [new PixelT[n]]. *)
Definition default_init (T : pixel_type) : cell :=
  match T with
  | Class d => Val d
  | Fundamental | Pod => Indet
  end.

(** ** The free store and [boost::shared_array] *)

Record block : Type := Block { use_count : nat; cells : list cell }.

Abbreviation heap := (list (option block)).

Inductive ptr : Type :=
  | Null
  | Ptr (b : nat) (off : Z).

(** A [shared_array] handle: empty, or the number of the block it shares. *)
Abbreviation shared_array := (option nat).

Definition heap_get (h : heap) (b : nat) : option block :=
  match h !! b with
  | Some (Some blk) => Some blk
  | _ => None
  end.

(** [shared_array<PixelT> data( new PixelT[n] )]: a fresh block owned by
    one handle. *)
Definition new_array (T : pixel_type) (h : heap) (n : Z) : heap * nat :=
  (h ++ [Some (Block 1 (replicate (Z.to_nat n) (default_init T)))], length h).

(** Copy construction of a handle. *)
Definition sa_copy (h : heap) (p : shared_array) : heap :=
  match p with
  | None => h
  | Some b =>
      match heap_get h b with
      | Some blk => <[b := Some (Block (S (use_count blk)) (cells blk))]> h
      | None => h
      end
  end.

(** Destruction of a handle ([reset()] and the destructor): the last
    owner deletes the array. *)
Definition sa_release (h : heap) (p : shared_array) : heap :=
  match p with
  | None => h
  | Some b =>
      match heap_get h b with
      | Some blk =>
          match use_count blk with
          | S (S n) => <[b := Some (Block (S n) (cells blk))]> h
          | _ => <[b := None]> h
          end
      | None => h
      end
  end.

(** [lhs = rhs] on handles: [shared_array(rhs).swap(lhs)]. *)
Definition sa_assign (h : heap) (lhs rhs : shared_array) : heap :=
  sa_release (sa_copy h rhs) lhs.

(** [get()]. *)
Definition sa_get (p : shared_array) : ptr :=
  match p with
  | None => Null
  | Some b => Ptr b 0
  end.

Definition ptr_add (a : ptr) (k : Z) : ptr :=
  match a with
  | Null => Null
  | Ptr b off => Ptr b (off + k)
  end.

(** Reading through a pointer; [None] is an invalid access. *)
Definition load (h : heap) (a : ptr) : option cell :=
  match a with
  | Null => None
  | Ptr b off =>
      blk ← heap_get h b;
      if decide (0 <= off) then cells blk !! Z.to_nat off else None
  end.

(** Writing through a pointer; [None] is an invalid access. *)
Definition store (h : heap) (a : ptr) (x : cell) : option heap :=
  match a with
  | Null => None
  | Ptr b off =>
      blk ← heap_get h b;
      if decide (0 <= off < Z.of_nat (length (cells blk)))
      then Some (<[b := Some (Block (use_count blk) (<[Z.to_nat off := x]> (cells blk)))]> h)
      else None
  end.

(** [memset( a, 0, n*sizeof(PixelT) )], counted in elements.  A zero
    length touches nothing. *)
Definition memset_zero (h : heap) (a : ptr) (n : Z) : option heap :=
  if decide (n = 0) then Some h
  else
    match a with
    | Null => None
    | Ptr b off =>
        blk ← heap_get h b;
        if decide (0 <= off /\ 0 <= n /\ off + n <= Z.of_nat (length (cells blk)))
        then Some (<[b := Some (Block (use_count blk)
                     (take (Z.to_nat off) (cells blk)
                      ++ replicate (Z.to_nat n) (Val 0)
                      ++ drop (Z.to_nat (off + n)) (cells blk)))]> h)
        else None
    end.

(** ** The view *)

Record ImageView : Type := {
  m_data : shared_array;
  m_cols : Z;
  m_rows : Z;
  m_planes : Z;
  m_origin : ptr;
  m_cstride : Z;
  m_rstride : Z;
  m_pstride : Z
}.

(** [ImageView()] *)
Definition default_ctor : ImageView :=
  {| m_data := None; m_cols := 0; m_rows := 0; m_planes := 0;
     m_origin := Null; m_cstride := 0; m_rstride := 0; m_pstride := 0 |}.

(** [ImageView( ImageView const& other )] *)
Definition copy_ctor (h : heap) (other : ImageView) : heap * ImageView :=
  (sa_copy h (m_data other),
   {| m_data := m_data other;
      m_cols := m_cols other; m_rows := m_rows other; m_planes := m_planes other;
      m_origin := m_origin other;
      m_cstride := m_cstride other; m_rstride := m_rstride other;
      m_pstride := m_pstride other |}).

(** The implicitly defined copy assignment [*this = other]: member-wise. *)
Definition copy_assign (h : heap) (v other : ImageView) : heap * ImageView :=
  (sa_assign h (m_data v) (m_data other),
   {| m_data := m_data other;
      m_cols := m_cols other; m_rows := m_rows other; m_planes := m_planes other;
      m_origin := m_origin other;
      m_cstride := m_cstride other; m_rstride := m_rstride other;
      m_pstride := m_pstride other |}).

(** [~ImageView()] *)
Definition destroy (h : heap) (v : ImageView) : heap := sa_release h (m_data v).

(** [reset()] *)
Definition reset (h : heap) (v : ImageView) : heap * ImageView :=
  (sa_release h (m_data v), default_ctor).

Definition cols (v : ImageView) : Z := m_cols v.
Definition rows (v : ImageView) : Z := m_rows v.
Definition planes (v : ImageView) : Z := m_planes v.

(** [operator()( int col, int row )] *)
Definition operator2 (v : ImageView) (col row : Z) : ptr :=
  ptr_add (m_origin v) (col * m_cstride v + row * m_rstride v).

(** [operator()( int col, int row, int plane )] *)
Definition operator3 (v : ImageView) (col row plane : Z) : ptr :=
  ptr_add (m_origin v) (col * m_cstride v + row * m_rstride v + plane * m_pstride v).

(** [data()] *)
Definition data (v : ImageView) : ptr := operator2 v 0 0.

(** [set_size( unsigned cols, unsigned rows, unsigned planes )] *)
Definition set_size (T : pixel_type) (h : heap) (v : ImageView)
    (cols rows planes : Z) : option (heap * ImageView) :=
  if decide (cols = m_cols v /\ rows = m_rows v /\ planes = m_planes v)
  then Some (h, v)
  else
    let size := umul (umul cols rows) planes in
    let '(h1, d) :=
      if decide (size = 0) then (sa_release h (m_data v), None)
      else
        let '(h0, b) := new_array T h size in
        let h0 := sa_assign h0 (m_data v) (Some b) in
        (sa_release h0 (Some b), Some b) in
    let v1 :=
      {| m_data := d;
         m_cols := cols; m_rows := rows; m_planes := planes;
         m_origin := sa_get d;
         m_cstride := 1; m_rstride := cols; m_pstride := umul rows cols |} in
    if is_fundamental T
    then h2 ← memset_zero h1 (sa_get (m_data v1))
                (umul (umul (m_rows v1) (m_cols v1)) (m_planes v1));
         Some (h2, v1)
    else Some (h1, v1).

(** [ImageView( unsigned cols, unsigned rows, unsigned planes )] *)
Definition sized_ctor (T : pixel_type) (h : heap) (cols rows planes : Z)
    : option (heap * ImageView) :=
  set_size T h default_ctor cols rows planes.

(** ** Rasterization *)

(** A type with the rasterization capability set: an extent and a value
    at every coordinate, which may depend on the contents of the free
    store (a view reads its pixels from there). *)
Record producer : Type := {
  p_cols : Z;
  p_rows : Z;
  p_planes : Z;
  p_eval : heap -> Z -> Z -> Z -> option cell
}.

(** [for( i = start; n iterations; ++i ) body] *)
Fixpoint for_each (n : nat) (i : Z) (body : Z -> heap -> option heap)
    (h : heap) : option heap :=
  match n with
  | O => Some h
  | S n' => h' ← body i h; for_each n' (i + 1) body h'
  end.

(** Modelled from the spec: [vw::rasterize( src, dest )], declared in
    ImageViewBase.h, is not among the sources.  Section 4.4 has it write
    every element of the sink once, plane-major, then row-major, then
    column-minor, each element receiving the producer's value at that
    coordinate. *)
Definition rasterize (P : producer) (h : heap) (dest : ImageView) : option heap :=
  for_each (Z.to_nat (planes dest)) 0 (fun p =>
    for_each (Z.to_nat (rows dest)) 0 (fun r =>
      for_each (Z.to_nat (cols dest)) 0 (fun c h' =>
        x ← p_eval P h' c r p;
        store h' (operator3 dest c r p) x))) h.

(** [operator=( ImageViewBase<SrcT> const& view )], non-const. *)
Definition assign (T : pixel_type) (h : heap) (v : ImageView) (P : producer)
    : option (heap * ImageView) :=
  '(h1, v1) ← set_size T h v (p_cols P) (p_rows P) (p_planes P);
  h2 ← rasterize P h1 v1;
  Some (h2, v1).

(** [operator=( ImageViewBase<SrcT> const& view ) const]: no resize. *)
Definition assign_const (h : heap) (v : ImageView) (P : producer) : option heap :=
  rasterize P h v.

(** A view seen through its [cols()], [rows()], [planes()] and
    [operator()]. *)
Definition as_producer (v : ImageView) : producer :=
  {| p_cols := cols v; p_rows := rows v; p_planes := planes v;
     p_eval := fun h c r p => load h (operator3 v c r p) |}.

(** [prerasterize()] returns a copy of the view. *)
Definition prerasterize (h : heap) (v : ImageView) : heap * ImageView :=
  copy_ctor h v.

(** [ImageView::rasterize( dest )]: [vw::rasterize( prerasterize(), dest )];
    the temporary copy is destroyed on return. *)
Definition ImageView_rasterize (h : heap) (v dest : ImageView) : option heap :=
  let '(h1, pre) := prerasterize h v in
  h2 ← rasterize (as_producer pre) h1 dest;
  Some (destroy h2 pre).

(** [operator=] instantiated at [SrcT = ImageView<PixelT>]; [src] is
    another view or, for a self-assignment, [v] itself. *)
Definition assign_view (T : pixel_type) (h : heap) (v src : ImageView)
    : option (heap * ImageView) :=
  '(h1, v1) ← set_size T h v (cols src) (rows src) (planes src);
  h2 ← ImageView_rasterize h1 src v1;
  Some (h2, v1).

(** [ImageView( ViewT const& view )] *)
Definition rasterizing_ctor (T : pixel_type) (h : heap) (P : producer)
    : option (heap * ImageView) :=
  '(h1, v1) ← set_size T h default_ctor (p_cols P) (p_rows P) (p_planes P);
  h2 ← rasterize P h1 v1;
  Some (h2, v1).

(** ** VIL interop *)

Inductive exn : Type := ArgumentErr.

(** How a member function that may throw ends: normally, with an
    exception (the state is the one at the throw), or undefined. *)
Inductive outcome : Type :=
  | Return (h : heap) (v : ImageView)
  | Throw (e : exn) (h : heap) (v : ImageView)
  | Undefined.

(** [vil_image_view<T>]: a pointer, an extent and three steps. *)
Record vil_image_view : Type := {
  top_left_ptr : ptr;
  ni : Z;
  nj : Z;
  nplanes : Z;
  istep : Z;
  jstep : Z;
  planestep : Z
}.

Section VIL.

(** [CompoundNumChannels<PixelT>::value] *)
Variable channels : Z.

(** [vil_copy_reformat( src, dest )] of the VXL library. *)
Variable vil_copy_reformat : heap -> vil_image_view -> vil_image_view -> option heap.

(** [vil_view()] *)
Definition vil_view (v : ImageView) : exn + vil_image_view :=
  if bool_decide (m_planes v = 1 \/ channels = 1)
  then inr {| top_left_ptr := m_origin v;
              ni := m_cols v; nj := m_rows v;
              nplanes := umul channels (m_planes v);
              istep := m_cstride v * channels;
              jstep := m_rstride v * channels;
              planestep := if decide (channels = 1) then m_pstride v else 1 |}
  else inl ArgumentErr.

(** [operator=( vil_image_view<...> const& src )] *)
Definition assign_vil (T : pixel_type) (h : heap) (v : ImageView)
    (src : vil_image_view) : outcome :=
  if bool_decide (channels <> 1 /\ nplanes src <> channels)
  then Throw ArgumentErr h v
  else
    match set_size T h v (ni src) (nj src)
            (if decide (channels = 1) then nplanes src else 1) with
    | None => Undefined
    | Some (h1, v1) =>
        match vil_view v1 with
        | inl e => Throw e h1 v1
        | inr wrapper =>
            match vil_copy_reformat h1 src wrapper with
            | Some h2 => Return h2 v1
            | None => Undefined
            end
        end
    end.

(** [ImageView( vil_image_view<...> const& src )] *)
Definition vil_ctor (T : pixel_type) (h : heap) (src : vil_image_view) : outcome :=
  assign_vil T h default_ctor src.

End VIL.

(** ** Predicates used in the statements *)

(** The coordinates the extent admits. *)
Definition in_extent (v : ImageView) (c r p : Z) : Prop :=
  0 <= c < m_cols v /\ 0 <= r < m_rows v /\ 0 <= p < m_planes v.

(** Arguments of [operator()] are of type [int]. *)
Definition int_args (c r p : Z) : Prop := is_int c /\ is_int r /\ is_int p.

(** A non-empty handle names a live block with at least one owner. *)
Definition owns (h : heap) (v : ImageView) : Prop :=
  match m_data v with
  | None => True
  | Some b => exists blk, heap_get h b = Some blk /\ (1 <= use_count blk)%nat
  end.

(** The addressing invariant of the data model: every coordinate of the
    extent lands inside the block the view owns. *)
Definition addressable (h : heap) (v : ImageView) : Prop :=
  forall c r p, in_extent v c r p ->
    exists b off blk,
      m_data v = Some b /\ operator3 v c r p = Ptr b off /\
      heap_get h b = Some blk /\ 0 <= off < Z.of_nat (length (cells blk)).

Definition canonical_strides (v : ImageView) : Prop :=
  m_cstride v = 1 /\ m_rstride v = m_cols v /\
  m_pstride v = umul (m_rows v) (m_cols v).

(** The shape of every view that the constructors, [set_size], [reset]
    and copying produce: the origin is the start of the owned block,
    whose length is the wrapped product of the extent, and the strides
    which is not empty, and the strides are the canonical ones unless the
    view is in its initial state. *)
Definition view_inv (h : heap) (v : ImageView) : Prop :=
  is_unsigned (m_cols v) /\ is_unsigned (m_rows v) /\ is_unsigned (m_planes v) /\
  m_origin v = sa_get (m_data v) /\
  (canonical_strides v \/ (m_cols v = 0 /\ m_rows v = 0 /\ m_planes v = 0)) /\
  match m_data v with
  | None => umul (umul (m_cols v) (m_rows v)) (m_planes v) = 0
  | Some b =>
      exists blk, heap_get h b = Some blk /\ (1 <= use_count blk)%nat /\
        Z.of_nat (length (cells blk)) = umul (umul (m_cols v) (m_rows v)) (m_planes v) /\
        0 < Z.of_nat (length (cells blk))
  end.


(** The producer's values are [f], whatever the block of [v] and the
    blocks allocated after [h] hold. *)
Definition independent_of (P : producer) (h : heap) (v : ImageView)
    (f : Z -> Z -> Z -> cell) : Prop :=
  forall h' : heap,
    (forall b : nat, (b < length h)%nat -> m_data v <> Some b -> h' !! b = h !! b) ->
    forall c r p, 0 <= c < p_cols P -> 0 <= r < p_rows P -> 0 <= p < p_planes P ->
      p_eval P h' c r p = Some (f c r p).

(** Pixel accesses through one of two views. *)
Inductive access : Type :=
  | ReadA (c r p : Z)
  | ReadB (c r p : Z)
  | WriteA (c r p : Z) (x : cell)
  | WriteB (c r p : Z) (x : cell).

Definition access_ok (a : ImageView) (k : access) : Prop :=
  match k with
  | ReadA c r p | ReadB c r p | WriteA c r p _ | WriteB c r p _ =>
      in_extent a c r p /\ int_args c r p
  end.

(** Runs the accesses in order; [None] as soon as one is invalid. *)
Fixpoint run_accesses (h : heap) (a b : ImageView) (ks : list access) : option heap :=
  match ks with
  | [] => Some h
  | k :: ks' =>
      h' ← match k with
           | ReadA c r p => _ ← load h (operator3 a c r p); Some h
           | ReadB c r p => _ ← load h (operator3 b c r p); Some h
           | WriteA c r p x => store h (operator3 a c r p) x
           | WriteB c r p x => store h (operator3 b c r p) x
           end;
      run_accesses h' a b ks'
  end.

(** The handle of a view, if any, names a block of the store. *)
Definition handle_in (h : heap) (v : ImageView) : Prop :=
  forall b, m_data v = Some b -> (b < length h)%nat.

(** The contents of a fresh array and the view written by a [set_size]
    that does not return early. *)
Definition fresh_cell (T : pixel_type) : cell :=
  if is_fundamental T then Val 0 else default_init T.

Definition resized (d : shared_array) (cols rows planes : Z) : ImageView :=
  {| m_data := d; m_cols := cols; m_rows := rows; m_planes := planes;
     m_origin := sa_get d;
     m_cstride := 1; m_rstride := cols; m_pstride := umul rows cols |}.

(** The cells of a block, if it is live. *)
Definition cells_of (h : heap) (b : nat) : option (list cell) :=
  cells <$> heap_get h b.

(** ** Example states *)

(** The 4x3 image of 32-bit integers built by [set_size(4,3)] on an
    empty view. *)
Definition image43_heap : heap := [Some (Block 1 (replicate 12 (Val 0)))].
Definition image43 : ImageView := resized (Some 0%nat) 4 3 1.

(** The same image after 7 was written at (2,1) and a second view was
    copy-constructed from it. *)
Definition image43_shared_heap : heap :=
  [Some (Block 2 (<[6%nat := Val 7]> (replicate 12 (Val 0))))].

(** The producer [value = c + 10*r] on a 3x2 extent. *)
Definition ramp32 : producer :=
  {| p_cols := 3; p_rows := 2; p_planes := 1;
     p_eval := fun _ c r _ => Some (Val (c + 10 * r)) |}.

(** A row of three pixels 1, 2, 3. *)
Definition row3_heap : heap := [Some (Block 1 [Val 1; Val 2; Val 3])].
Definition row3 : ImageView := resized (Some 0%nat) 3 1 1.

(** A view shifted by one column with periodic wrap-around: a producer
    that reads the pixels of [v]. *)
Definition shifted (v : ImageView) : producer :=
  {| p_cols := cols v; p_rows := rows v; p_planes := planes v;
     p_eval := fun h c r p => load h (operator3 v ((c + 1) mod cols v) r p) |}.

(** The 4x3 image seen mirrored in both directions: negative strides
    from the last element. *)
Definition image43_mirrored : ImageView :=
  {| m_data := Some 0%nat; m_cols := 4; m_rows := 3; m_planes := 1;
     m_origin := Ptr 0 11; m_cstride := -1; m_rstride := -4; m_pstride := 0 |}.

(** A VIL image of one plane. *)
Definition grey_vil : vil_image_view :=
  {| top_left_ptr := Null; ni := 4; nj := 3; nplanes := 1;
     istep := 1; jstep := 4; planestep := 12 |}.

(** ** The viewer: vwv.cc and vwv_GlPreviewWidget.h *)

(** [cache_size*1024*1024], the byte count [main] hands to
    [Cache::resize]: a product of [unsigned] values. *)
Definition cache_bytes (cache_size : Z) : Z := umul (umul cache_size 1024) 1024.

Section PointList.

Context {Vector2 Vector3 : Type}.

(** [class PointList]: crosshair locations and one colour. *)
Record PointList : Type := { m_points : list Vector2; m_color : Vector3 }.

(** [PointList( Vector3 const& color )] *)
Definition PointList_ctor (color : Vector3) : PointList :=
  {| m_points := []; m_color := color |}.

Definition points (pl : PointList) : list Vector2 := m_points pl.
Definition color (pl : PointList) : Vector3 := m_color pl.

(** [push_back( Vector2 pt )] *)
Definition push_back (pl : PointList) (pt : Vector2) : PointList :=
  {| m_points := m_points pl ++ [pt]; m_color := m_color pl |}.

(** [push_back( std::list<Vector2> pts )]: the iterator loop. *)
Fixpoint push_back_list (pl : PointList) (pts : list Vector2) : PointList :=
  match pts with
  | [] => pl
  | pt :: rest => push_back_list (push_back pl pt) rest
  end.

(** [PointList( std::list<Vector2> const& points, Vector3 const& color )] *)
Definition PointList_ctor_points (pts : list Vector2) (color : Vector3) : PointList :=
  push_back_list (PointList_ctor color) pts.

End PointList.

(** ** Arithmetic of [unsigned] products *)

Lemma umul_nonneg a b : 0 <= umul a b < 2 ^ 32.
Proof. unfold umul, wrap_unsigned. apply Z.mod_pos_bound. lia. Qed.

Lemma umul_comm a b : umul a b = umul b a.
Proof. unfold umul. by rewrite Z.mul_comm. Qed.

Lemma umul3 a b c : umul (umul a b) c = (a * b * c) mod 2 ^ 32.
Proof. unfold umul, wrap_unsigned. by rewrite Zmult_mod_idemp_l. Qed.

Lemma umul3_swap a b c : umul (umul b a) c = umul (umul a b) c.
Proof. by rewrite (umul_comm b a). Qed.

Lemma umul_small a b : 0 <= a * b < 2 ^ 32 -> umul a b = a * b.
Proof. intros H. unfold umul, wrap_unsigned. by apply Z.mod_small. Qed.

Lemma umul3_small a b c : 0 <= a * b * c < 2 ^ 32 -> umul (umul a b) c = a * b * c.
Proof. intros H. rewrite umul3. by apply Z.mod_small. Qed.

Lemma umul3_zero a b c : a = 0 \/ b = 0 \/ c = 0 -> umul (umul a b) c = 0.
Proof.
  intros H. rewrite umul3.
  replace (a * b * c) with 0 by (destruct H as [->|[->| ->]]; lia). done.
Qed.

(** ** The free store *)

Lemma heap_get_lt (h : heap) b blk : heap_get h b = Some blk -> (b < length h)%nat.
Proof.
  unfold heap_get. destruct (h !! b) eqn:E; [|done].
  intros _. by eapply lookup_lt_Some.
Qed.

Lemma heap_get_lookup (h : heap) b blk : heap_get h b = Some blk <-> h !! b = Some (Some blk).
Proof.
  unfold heap_get. destruct (h !! b) as [[?|]|]; split; congruence.
Qed.

Lemma heap_get_insert_eq (h : heap) b x :
  (b < length h)%nat -> heap_get (<[b := x]> h) b = x.
Proof.
  intros H. unfold heap_get. rewrite list_lookup_insert_eq by done. by destruct x.
Qed.

Lemma heap_get_insert_ne (h : heap) b b' x :
  b <> b' -> heap_get (<[b := x]> h) b' = heap_get h b'.
Proof. intros H. unfold heap_get. by rewrite list_lookup_insert_ne. Qed.

Lemma heap_get_app_l (h : heap) x b :
  (b < length h)%nat -> heap_get (h ++ [x]) b = heap_get h b.
Proof. intros H. unfold heap_get. by rewrite lookup_app_l. Qed.

Lemma heap_get_app_new (h : heap) x : heap_get (h ++ [x]) (length h) = x.
Proof. unfold heap_get. rewrite list_lookup_middle by done. by destruct x. Qed.

Lemma heap_get_fresh (h : heap) : heap_get h (length h) = None.
Proof. unfold heap_get. by rewrite lookup_ge_None_2. Qed.

Lemma length_sa_copy (h : heap) p : length (sa_copy h p) = length h.
Proof.
  unfold sa_copy. destruct p as [b|]; [|done].
  destruct (heap_get h b); [|done]. by rewrite length_insert.
Qed.

Lemma length_sa_release (h : heap) p : length (sa_release h p) = length h.
Proof.
  unfold sa_release. destruct p as [b|]; [|done].
  destruct (heap_get h b) as [blk|]; [|done].
  destruct (use_count blk) as [|[|n]]; by rewrite length_insert.
Qed.

(** Releasing a handle of the old store commutes with an allocation. *)
Lemma sa_release_app (h : heap) x p :
  (forall b, p = Some b -> (b < length h)%nat) ->
  sa_release (h ++ [x]) p = sa_release h p ++ [x].
Proof.
  intros Hp. unfold sa_release. destruct p as [b|]; [|done].
  specialize (Hp b eq_refl). rewrite heap_get_app_l by done.
  destruct (heap_get h b) as [blk|]; [|done].
  destruct (use_count blk) as [|[|n]]; by rewrite insert_app_l.
Qed.

Lemma sa_copy_new (h : heap) b n cs :
  b = length h ->
  sa_copy (h ++ [Some (Block n cs)]) (Some b) = h ++ [Some (Block (S n) cs)].
Proof.
  intros ->. unfold sa_copy. rewrite heap_get_app_new. simpl.
  rewrite insert_app_r_alt by done. by rewrite Nat.sub_diag.
Qed.

Lemma sa_release_new (h : heap) b n cs :
  b = length h ->
  sa_release (h ++ [Some (Block (S (S n)) cs)]) (Some b)
  = h ++ [Some (Block (S n) cs)].
Proof.
  intros ->. unfold sa_release. rewrite heap_get_app_new. simpl.
  rewrite insert_app_r_alt by done. by rewrite Nat.sub_diag.
Qed.

Lemma memset_zero_new (h : heap) b k n cs :
  b = length h -> k = Z.of_nat (length cs) ->
  memset_zero (h ++ [Some (Block n cs)]) (Ptr b 0) k
  = Some (h ++ [Some (Block n (replicate (length cs) (Val 0)))]).
Proof.
  intros -> ->. unfold memset_zero. case_decide as Hz.
  - destruct cs; [|done]. done.
  - rewrite heap_get_app_new. simpl. rewrite decide_True by lia.
    rewrite insert_app_r_alt by done. rewrite Nat.sub_diag. simpl.
    rewrite Nat2Z.id, Z.add_0_l, Nat2Z.id, drop_all. by rewrite app_nil_r.
Qed.

Lemma owns_handle_in h v : owns h v -> handle_in h v.
Proof.
  unfold owns, handle_in. intros H b E. rewrite E in H.
  destruct H as (blk & H & _). by eapply heap_get_lt.
Qed.

Lemma view_inv_owns h v : view_inv h v -> owns h v.
Proof.
  unfold view_inv, owns. intros (_ & _ & _ & _ & _ & H).
  destruct (m_data v); [|done]. destruct H as (blk & ? & ? & _). eauto.
Qed.

(** ** What [set_size] computes *)

Lemma set_size_same T h v c r p :
  c = m_cols v /\ r = m_rows v /\ p = m_planes v ->
  set_size T h v c r p = Some (h, v).
Proof. intros H. unfold set_size. by rewrite decide_True. Qed.

Lemma set_size_empty T h v c r p :
  ~ (c = m_cols v /\ r = m_rows v /\ p = m_planes v) ->
  umul (umul c r) p = 0 ->
  set_size T h v c r p = Some (sa_release h (m_data v), resized None c r p).
Proof.
  intros Hne Hz. unfold set_size. rewrite decide_False by done.
  rewrite decide_True by done. simpl.
  rewrite (umul3_swap c r p), Hz. unfold memset_zero. simpl.
  by destruct (is_fundamental T).
Qed.

Lemma set_size_alloc T h v c r p :
  handle_in h v ->
  ~ (c = m_cols v /\ r = m_rows v /\ p = m_planes v) ->
  umul (umul c r) p <> 0 ->
  set_size T h v c r p
  = Some (sa_release h (m_data v)
            ++ [Some (Block 1 (replicate (Z.to_nat (umul (umul c r) p)) (fresh_cell T)))],
          resized (Some (length h)) c r p).
Proof.
  intros Hin Hne Hnz. unfold set_size. rewrite decide_False by done.
  rewrite decide_False by done. unfold new_array, sa_assign.
  rewrite sa_copy_new by done. rewrite sa_release_app by done.
  rewrite sa_release_new by (by rewrite length_sa_release).
  unfold fresh_cell. destruct (is_fundamental T); [|done]. simpl.
  rewrite (umul3_swap c r p).
  pose proof (umul_nonneg (umul c r) p) as Hn.
  rewrite (memset_zero_new _ (length h))
    by (rewrite ?length_sa_release, ?length_replicate; lia).
  by rewrite length_replicate.
Qed.

(** [set_size] always returns. *)
Lemma set_size_total T h v c r p :
  handle_in h v -> exists h' v', set_size T h v c r p = Some (h', v').
Proof.
  intros Hin.
  destruct (decide (c = m_cols v /\ r = m_rows v /\ p = m_planes v)) as [Hs|Hs].
  { rewrite set_size_same by done. eauto. }
  destruct (decide (umul (umul c r) p = 0)) as [Hz|Hz].
  { rewrite set_size_empty by done. eauto. }
  rewrite set_size_alloc by done. eauto.
Qed.

(** ** Loads and stores *)

Lemma load_cells_of h b off :
  load h (Ptr b off)
  = cs ← cells_of h b; if decide (0 <= off) then cs !! Z.to_nat off else None.
Proof. unfold load, cells_of. by destruct (heap_get h b). Qed.

Lemma load_ext h h' b off :
  cells_of h' b = cells_of h b -> load h' (Ptr b off) = load h (Ptr b off).
Proof. intros E. by rewrite !load_cells_of, E. Qed.

Lemma load_valid h b off blk :
  heap_get h b = Some blk -> 0 <= off < Z.of_nat (length (cells blk)) ->
  exists x, load h (Ptr b off) = Some x /\ cells blk !! Z.to_nat off = Some x.
Proof.
  intros Hb Hoff. unfold load. rewrite Hb. simpl. rewrite decide_True by lia.
  destruct (lookup_lt_is_Some_2 (cells blk) (Z.to_nat off)) as [x Hx]; [lia|].
  eauto.
Qed.

Lemma store_valid h b off blk x :
  heap_get h b = Some blk -> 0 <= off < Z.of_nat (length (cells blk)) ->
  store h (Ptr b off) x
  = Some (<[b := Some (Block (use_count blk) (<[Z.to_nat off := x]> (cells blk)))]> h).
Proof. intros Hb Hoff. unfold store. rewrite Hb. simpl. by rewrite decide_True. Qed.

Lemma load_store_eq h a x h' : store h a x = Some h' -> load h' a = Some x.
Proof.
  destruct a as [|b off]; [done|]. unfold store, load.
  destruct (heap_get h b) as [blk|] eqn:Hb; [|done]. simpl.
  case_decide as Hoff; [|done]. intros [= <-].
  rewrite heap_get_insert_eq by (by eapply heap_get_lt). simpl.
  rewrite decide_True by lia. apply list_lookup_insert_eq. lia.
Qed.

(** Writing back the value a cell holds leaves the store as it is. *)
Lemma store_same h a x : load h a = Some x -> store h a x = Some h.
Proof.
  destruct a as [|b off]; [done|]. unfold store, load.
  destruct (heap_get h b) as [blk|] eqn:Hb; [|done]. simpl.
  case_decide as Hoff; [|done]. intros Hx.
  rewrite decide_True by (apply lookup_lt_Some in Hx; lia).
  rewrite (list_insert_id _ _ _ Hx). destruct blk as [n cs]. simpl.
  rewrite list_insert_id; [done|]. by apply heap_get_lookup.
Qed.

(** ** Reference counts *)

Lemma cells_of_sa_copy h p b : cells_of (sa_copy h p) b = cells_of h b.
Proof.
  unfold sa_copy. destruct p as [k|]; [|done].
  destruct (heap_get h k) as [blk|] eqn:Hk; [|done].
  unfold cells_of. destruct (decide (k = b)) as [->|Hne].
  - rewrite heap_get_insert_eq by (by eapply heap_get_lt). by rewrite Hk.
  - by rewrite heap_get_insert_ne.
Qed.

(** A release leaves the cells of every block that keeps an owner. *)
Lemma heap_get_sa_release_ne h p b :
  p <> Some b -> heap_get (sa_release h p) b = heap_get h b.
Proof.
  intros Hp. unfold sa_release. destruct p as [k|]; [|done].
  destruct (heap_get h k) as [blk|]; [|done].
  assert (k <> b) by congruence.
  destruct (use_count blk) as [|[|n]]; by rewrite heap_get_insert_ne.
Qed.

Lemma heap_get_sa_release_shared h b blk :
  heap_get h b = Some blk -> (2 <= use_count blk)%nat ->
  heap_get (sa_release h (Some b)) b
  = Some (Block (pred (use_count blk)) (cells blk)).
Proof.
  intros Hb Hc. unfold sa_release. rewrite Hb.
  destruct (use_count blk) as [|[|n]]; [lia|lia|].
  by rewrite heap_get_insert_eq by (by eapply heap_get_lt).
Qed.

Lemma heap_get_sa_copy_eq h b blk :
  heap_get h b = Some blk ->
  heap_get (sa_copy h (Some b)) b = Some (Block (S (use_count blk)) (cells blk)).
Proof.
  intros Hb. unfold sa_copy. rewrite Hb.
  by rewrite heap_get_insert_eq by (by eapply heap_get_lt).
Qed.


(** A temporary copy of a handle and its destruction cancel. *)
Lemma sa_release_sa_copy h p :
  (forall b, p = Some b -> exists blk, heap_get h b = Some blk /\ (1 <= use_count blk)%nat) ->
  sa_release (sa_copy h p) p = h.
Proof.
  intros Hp. destruct p as [b|]; [|done].
  destruct (Hp b eq_refl) as (blk & Hb & Hc).
  unfold sa_release. rewrite (heap_get_sa_copy_eq _ _ _ Hb). simpl.
  unfold sa_copy. rewrite Hb.
  destruct blk as [n cs]. simpl in *. destruct n as [|n]; [lia|].
  rewrite list_insert_insert_eq. apply list_insert_id. by apply heap_get_lookup.
Qed.

(** ** Shape of the store seen from a view *)

Lemma copy_ctor_eq h v : copy_ctor h v = (sa_copy h (m_data v), v).
Proof. by destruct v. Qed.

Lemma copy_assign_eq h v other :
  copy_assign h v other = (sa_assign h (m_data v) (m_data other), other).
Proof. by destruct other. Qed.

(** [addressable] only looks at the length of the owned block. *)
Lemma addressable_ext h h' v :
  (forall b, m_data v = Some b ->
     length <$> cells_of h' b = length <$> cells_of h b) ->
  addressable h v -> addressable h' v.
Proof.
  intros Hlen Ha c r p Hin.
  destruct (Ha c r p Hin) as (b & off & blk & Hd & Hop & Hb & Hoff).
  specialize (Hlen b Hd). unfold cells_of in Hlen. rewrite Hb in Hlen. simpl in Hlen.
  destruct (heap_get h' b) as [blk'|] eqn:Hb'; [|done].
  simpl in Hlen. injection Hlen as Hlen.
  exists b, off, blk'. rewrite Hlen. done.
Qed.

Lemma cells_of_store h a x h' b :
  store h a x = Some h' -> length <$> cells_of h' b = length <$> cells_of h b.
Proof.
  destruct a as [|k off]; [done|]. unfold store.
  destruct (heap_get h k) as [blk|] eqn:Hk; [|done]. simpl.
  case_decide; [|done]. intros [= <-]. unfold cells_of.
  destruct (decide (k = b)) as [->|Hne].
  - rewrite heap_get_insert_eq by (by eapply heap_get_lt). rewrite Hk. simpl.
    by rewrite length_insert.
  - by rewrite heap_get_insert_ne.
Qed.

Lemma addressable_store h a x h' v :
  store h a x = Some h' -> addressable h v -> addressable h' v.
Proof. intros Hs. apply addressable_ext. intros b _. by eapply cells_of_store. Qed.

Lemma addressable_load h v c r p :
  addressable h v -> in_extent v c r p ->
  exists x, load h (operator3 v c r p) = Some x.
Proof.
  intros Ha Hin. destruct (Ha c r p Hin) as (b & off & blk & _ & -> & Hb & Hoff).
  destruct (load_valid h b off blk Hb Hoff) as (x & Hx & _). eauto.
Qed.

Lemma addressable_store_defined h v c r p x :
  addressable h v -> in_extent v c r p ->
  exists h', store h (operator3 v c r p) x = Some h'.
Proof.
  intros Ha Hin. destruct (Ha c r p Hin) as (b & off & blk & _ & -> & Hb & Hoff).
  rewrite (store_valid h b off blk x Hb Hoff). eauto.
Qed.

(** After [sa_assign h lhs rhs] the block of [rhs] is live with its cells. *)
Lemma cells_of_sa_assign h lhs b blk :
  heap_get h b = Some blk -> (1 <= use_count blk)%nat ->
  exists blk', heap_get (sa_assign h lhs (Some b)) b = Some blk' /\
    cells blk' = cells blk /\ (1 <= use_count blk')%nat.
Proof.
  intros Hb Hc. unfold sa_assign.
  pose proof (heap_get_sa_copy_eq h b blk Hb) as Hcp.
  destruct (decide (lhs = Some b)) as [->|Hne].
  - rewrite (heap_get_sa_release_shared _ _ _ Hcp) by (simpl; lia).
    simpl. eexists; split; [done|]. simpl. split; [done|lia].
  - rewrite heap_get_sa_release_ne by done. rewrite Hcp.
    eexists; split; [done|]. simpl. split; [done|lia].
Qed.

(** ** Loops *)

Lemma for_each_inv (I : Z -> heap -> Prop) body n i0 h :
  I i0 h ->
  (forall i h1, i0 <= i < i0 + Z.of_nat n -> I i h1 ->
     exists h2, body i h1 = Some h2 /\ I (i + 1) h2) ->
  exists h', for_each n i0 body h = Some h' /\ I (i0 + Z.of_nat n) h'.
Proof.
  revert i0 h. induction n as [|n IH]; intros i0 h Hi Hstep.
  - exists h. simpl. by rewrite Z.add_0_r.
  - destruct (Hstep i0 h) as (h2 & Hb & Hi2); [lia|done|].
    destruct (IH (i0 + 1) h2 Hi2) as (h' & Hf & Hi').
    { intros i h1 Hr. apply Hstep. lia. }
    exists h'. simpl. rewrite Hb. simpl. split; [done|].
    by replace (i0 + Z.of_nat (S n)) with (i0 + 1 + Z.of_nat n) by lia.
Qed.

(** A loop whose body leaves the store alone leaves the store alone. *)
Lemma for_each_id body n i0 h :
  (forall i, i0 <= i < i0 + Z.of_nat n -> body i h = Some h) ->
  for_each n i0 body h = Some h.
Proof.
  intros Hb.
  destruct (for_each_inv (fun _ h' => h' = h) body n i0 h eq_refl) as (h' & Hf & ->);
    [|done].
  intros i h1 Hr ->. eauto.
Qed.

(** ** Pixel access *)

(** C6. [operator()(c,r,p)] designates the element at
    [origin + c*col_stride + r*row_stride + p*plane_stride], for every
    coordinate and every stride, of either sign or zero, without consulting
    the extent; the two-argument form is the three-argument one at plane 0.
    Reading through the result yields the cell of the block at that
    offset, and nothing when the offset lies before the block. *)
Theorem operator_call_strided v h b o blk c r p :
  int_args c r p ->
  m_origin v = Ptr b o ->
  heap_get h b = Some blk ->
  let k := o + c * m_cstride v + r * m_rstride v + p * m_pstride v in
  operator3 v c r p = Ptr b k /\
  operator2 v c r = operator3 v c r 0 /\
  (0 <= k -> load h (operator3 v c r p) = cells blk !! Z.to_nat k) /\
  (k < 0 -> load h (operator3 v c r p) = None).
Proof.
  intros _ Ho Hb k. unfold operator3, operator2. rewrite Ho. simpl.
  assert (Hk : o + (c * m_cstride v + r * m_rstride v + p * m_pstride v) = k)
    by (unfold k; lia).
  rewrite Hk. split; [done|]. split; [f_equal; lia|].
  rewrite Hb. simpl. split; intros Hs.
  - by rewrite decide_True.
  - by rewrite decide_False by lia.
Qed.

(** ** VIL interop *)

(** C8. Copying from a VIL image whose plane count differs from the
    channel count [k <> 1] of the pixel type throws [ArgumentErr] before
    anything is resized or copied: the store and the view at the throw are
    the ones the call started with. *)
Theorem assign_vil_plane_mismatch channels vil_copy_reformat T h v src :
  channels <> 1 ->
  nplanes src <> channels ->
  assign_vil channels vil_copy_reformat T h v src = Throw ArgumentErr h v.
Proof.
  intros H1 H2. unfold assign_vil. by rewrite bool_decide_eq_true_2.
Qed.

(** ** [set_size] on extents whose product wraps or vanishes *)

Lemma resized_view_inv T h v c r p h' v' :
  handle_in h v ->
  is_unsigned c -> is_unsigned r -> is_unsigned p ->
  ~ (c = m_cols v /\ r = m_rows v /\ p = m_planes v) ->
  set_size T h v c r p = Some (h', v') ->
  view_inv h' v'.
Proof.
  intros Hin Hc Hr Hp Hne.
  destruct (decide (umul (umul c r) p = 0)) as [Hz|Hz].
  - rewrite set_size_empty by done. intros [= <- <-].
    unfold view_inv, canonical_strides. simpl. auto 10.
  - rewrite set_size_alloc by done. intros [= <- <-].
    unfold view_inv, canonical_strides. simpl.
    do 5 (split; [by auto|]).
    rewrite <- (length_sa_release h (m_data v)), heap_get_app_new.
    eexists; split; [done|]. simpl. split; [lia|].
    rewrite length_replicate. pose proof (umul_nonneg (umul c r) p). lia.
Qed.

(** The invariant is established by the default constructor and kept by
    [set_size]. *)
Lemma default_ctor_view_inv h : view_inv h default_ctor.
Proof. unfold view_inv, is_unsigned. simpl. repeat split; auto; lia. Qed.

Lemma set_size_view_inv T h v c r p h' v' :
  view_inv h v ->
  is_unsigned c -> is_unsigned r -> is_unsigned p ->
  set_size T h v c r p = Some (h', v') ->
  view_inv h' v'.
Proof.
  intros Hv Hc Hr Hp.
  destruct (decide (c = m_cols v /\ r = m_rows v /\ p = m_planes v)) as [Hs|Hs].
  - rewrite set_size_same by done. by intros [= <- <-].
  - apply resized_view_inv; try done. by apply owns_handle_in, view_inv_owns.
Qed.

Lemma copy_ctor_view_inv h v h' v' :
  view_inv h v -> copy_ctor h v = (h', v') -> view_inv h' v' /\ view_inv h' v.
Proof.
  intros Hv. rewrite copy_ctor_eq. intros [= <- <-].
  assert (H : view_inv (sa_copy h (m_data v)) v); [|done].
  destruct Hv as (Hc & Hr & Hp & Ho & Hs & Hd). do 5 (split; [done|]).
  destruct (m_data v) as [b|]; [|done].
  destruct Hd as (blk & Hb & Hcnt & Hlen & Hpos).
  rewrite (heap_get_sa_copy_eq _ _ _ Hb).
  eexists. split; [done|]. simpl. split; [lia|done].
Qed.

Lemma reset_view_inv h v : view_inv (fst (reset h v)) (snd (reset h v)).
Proof. apply default_ctor_view_inv. Qed.

(** C9. The element count is the product of the extent modulo 2^32.
    When the product exceeds 2^32-1 the view reports the requested
    extent but owns only [cols*rows*planes mod 2^32] elements, fewer than
    the extent describes, and owns no buffer at all when the product wraps
    to zero. *)
Theorem set_size_wraps_element_count T h v c r p :
  view_inv h v ->
  is_unsigned c -> is_unsigned r -> is_unsigned p ->
  2 ^ 32 - 1 < c * r * p ->
  exists h' v',
    set_size T h v c r p = Some (h', v') /\
    cols v' = c /\ rows v' = r /\ planes v' = p /\
    ((c * r * p) mod 2 ^ 32 <> 0 ->
       exists b blk, m_data v' = Some b /\ heap_get h' b = Some blk /\
         Z.of_nat (length (cells blk)) = (c * r * p) mod 2 ^ 32 /\
         Z.of_nat (length (cells blk)) < c * r * p) /\
    ((c * r * p) mod 2 ^ 32 = 0 -> m_data v' = None /\ m_origin v' = Null).
Proof.
  intros Hv Hc Hr Hp Hbig.
  destruct (set_size_total T h v c r p) as (h' & v' & Hs).
  { by apply owns_handle_in, view_inv_owns. }
  exists h', v'. split; [done|].
  pose proof (set_size_view_inv T h v c r p h' v' Hv Hc Hr Hp Hs) as Hv'.
  assert (He : cols v' = c /\ rows v' = r /\ planes v' = p).
  { destruct (decide (c = m_cols v /\ r = m_rows v /\ p = m_planes v)) as [Hsame|Hne].
    - rewrite set_size_same in Hs by done. injection Hs as <- <-.
      unfold cols, rows, planes. by destruct Hsame as (-> & -> & ->).
    - destruct (decide (umul (umul c r) p = 0)) as [Hz|Hz].
      + rewrite set_size_empty in Hs by done. by injection Hs as <- <-.
      + rewrite set_size_alloc in Hs
          by (done || by apply owns_handle_in, view_inv_owns).
        by injection Hs as <- <-. }
  destruct He as (Ec & Er & Ep). do 3 (split; [done|]).
  unfold cols, rows, planes in *.
  destruct Hv' as (_ & _ & _ & Ho & _ & Hd).
  rewrite Ec, Er, Ep, umul3 in Hd.
  pose proof (Z.mod_pos_bound (c * r * p) (2 ^ 32) ltac:(lia)) as Hm.
  destruct (m_data v') as [b|] eqn:Hb.
  - destruct Hd as (blk & Hblk & Hcnt & Hlen & Hpos). split.
    + intros _. exists b, blk. repeat split; try done. lia.
    + intros Hz. lia.
  - split; [by intros ?|]. intros _. by rewrite Ho.
Qed.

(** C10, for a changed extent. A [set_size] with a zero argument and an
    extent other than the current one releases the buffer and leaves the
    view without one, its origin null, while the extent reports the
    requested values and the strides are 1, [cols] and the [unsigned]
    product [rows*cols]; the default constructor and [reset] give the
    all-zero view. *)
Theorem set_size_zero_volume T h v c r p :
  is_unsigned c -> is_unsigned r -> is_unsigned p ->
  c = 0 \/ r = 0 \/ p = 0 ->
  ~ (c = m_cols v /\ r = m_rows v /\ p = m_planes v) ->
  (exists v',
     set_size T h v c r p = Some (sa_release h (m_data v), v') /\
     m_data v' = None /\ m_origin v' = Null /\
     cols v' = c /\ rows v' = r /\ planes v' = p /\
     m_cstride v' = 1 /\ m_rstride v' = c /\ m_pstride v' = (r * c) mod 2 ^ 32) /\
  (cols default_ctor = 0 /\ rows default_ctor = 0 /\ planes default_ctor = 0 /\
   m_cstride default_ctor = 0) /\
  snd (reset h v) = default_ctor.
Proof.
  intros _ _ _ Hz Hne. split; [|done].
  exists (resized None c r p). rewrite set_size_empty by (done || by apply umul3_zero).
  done.
Qed.

(** ** Self-assignment *)

Lemma addressable_sa_copy h p v : addressable h v -> addressable (sa_copy h p) v.
Proof. apply addressable_ext. intros b _. by rewrite cells_of_sa_copy. Qed.

(** Rasterizing a view into itself rewrites every cell with the value
    it holds. *)
Lemma rasterize_self h v :
  addressable h v -> rasterize (as_producer v) h v = Some h.
Proof.
  intros Ha. unfold rasterize.
  apply for_each_id. intros p Hp.
  apply for_each_id. intros r Hr.
  apply for_each_id. intros c Hc. simpl.
  destruct (addressable_load h v c r p Ha) as (x & Hx).
  { unfold in_extent, planes, rows, cols in *. lia. }
  rewrite Hx. simpl. by apply store_same.
Qed.

(** C7. Assigning a view to itself through the rasterizing [operator=]
    changes neither the view nor any cell of the store: [set_size] returns
    at once, and each element is rewritten with its own value. *)
Theorem self_assign_identity T h v :
  owns h v -> addressable h v -> assign_view T h v v = Some (h, v).
Proof.
  intros Ho Ha. unfold assign_view.
  rewrite set_size_same by done. simpl.
  unfold ImageView_rasterize, prerasterize. rewrite copy_ctor_eq.
  rewrite rasterize_self by (by apply addressable_sa_copy). simpl.
  unfold destroy. rewrite sa_release_sa_copy; [done|].
  intros b Hb. unfold owns in Ho. by rewrite Hb in Ho.
Qed.

(** The implicit copy assignment of a view to itself is the identity
    as well. *)
Lemma copy_assign_self h v : owns h v -> copy_assign h v v = (h, v).
Proof.
  intros Ho. rewrite copy_assign_eq. unfold sa_assign.
  rewrite sa_release_sa_copy; [done|].
  intros b Hb. unfold owns in Ho. by rewrite Hb in Ho.
Qed.

(** ** Shallow copies *)

Lemma run_accesses_defined h a ks :
  addressable h a -> Forall (access_ok a) ks ->
  exists hn, run_accesses h a a ks = Some hn /\ addressable hn a.
Proof.
  intros Ha Hks. revert h Ha. induction Hks as [|k ks Hk _ IH]; intros h Ha.
  { exists h. done. }
  simpl. destruct k as [c r p|c r p|c r p x|c r p x]; destruct Hk as [Hin _].
  1,2: destruct (addressable_load h a c r p Ha Hin) as (y & ->); simpl; by apply IH.
  1,2: destruct (addressable_store_defined h a c r p x Ha Hin) as (h' & Hs);
       rewrite Hs; simpl; apply IH; by eapply addressable_store.
Qed.

(** Whatever one of two equal views writes, the other reads. *)
Lemma shared_write_read h1 a ks :
  addressable h1 a -> Forall (access_ok a) ks ->
  exists hn, run_accesses h1 a a ks = Some hn /\
    forall c r p x, in_extent a c r p -> int_args c r p ->
      exists h', store hn (operator3 a c r p) x = Some h' /\
                 load h' (operator3 a c r p) = Some x.
Proof.
  intros Ha Hks.
  destruct (run_accesses_defined h1 a ks Ha Hks) as (hn & Hrun & Hn).
  exists hn. split; [done|]. intros c r p x Hin _.
  destruct (addressable_store_defined hn a c r p x Hn Hin) as (h' & Hs).
  exists h'. split; [done|]. by eapply load_store_eq.
Qed.

(** C3. A view [b] copy-constructed from [a], or copy-assigned from it
    over any [b0], holds [a]'s buffer: after any sequence of in-range reads
    and writes through either of them, a value written through one at an
    in-range coordinate is the value read through the other there. *)
Theorem copy_shares_buffer h a b0 h1 b :
  owns h a -> addressable h a ->
  copy_ctor h a = (h1, b) \/ copy_assign h b0 a = (h1, b) ->
  m_data b = m_data a /\ m_origin b = m_origin a /\
  forall ks, Forall (access_ok a) ks ->
    exists hn, run_accesses h1 a b ks = Some hn /\
      forall c r p x, in_extent a c r p -> int_args c r p ->
        (exists h', store hn (operator3 a c r p) x = Some h' /\
                    load h' (operator3 b c r p) = Some x) /\
        (exists h', store hn (operator3 b c r p) x = Some h' /\
                    load h' (operator3 a c r p) = Some x).
Proof.
  intros Ho Ha Hcopy.
  assert (Hb : b = a /\ addressable h1 a).
  { destruct Hcopy as [Hc|Hc].
    - rewrite copy_ctor_eq in Hc. injection Hc as <- <-.
      split; [done|]. by apply addressable_sa_copy.
    - rewrite copy_assign_eq in Hc. injection Hc as <- <-.
      split; [done|]. revert Ha. apply addressable_ext. intros k Hk.
      unfold owns in Ho. rewrite Hk in Ho. destruct Ho as (blk & Hblk & Hcnt).
      destruct (cells_of_sa_assign h (m_data b0) k blk Hblk Hcnt) as (blk' & Hg & Hcs & _).
      unfold cells_of. rewrite Hk, Hg, Hblk. simpl. by rewrite Hcs. }
  destruct Hb as [-> Ha1]. do 2 (split; [done|]).
  intros ks Hks.
  destruct (shared_write_read h1 a ks Ha1 Hks) as (hn & Hrun & Hwr).
  exists hn. split; [done|]. intros c r p x Hin Hint.
  split; by apply Hwr.
Qed.

(** ** Resizing one of two views that share a buffer *)


(** ** The canonical layout *)

(** Coordinates of the extent are numbered [c + cols*(r + rows*p)],
    injectively and below the product of the extent. *)
Lemma index_bound C R Pl c r p :
  0 <= c < C -> 0 <= r < R -> 0 <= p < Pl ->
  0 <= c + C * (r + R * p) < C * R * Pl.
Proof.
  intros Hc Hr Hp.
  assert (0 <= r + R * p <= R * Pl - 1) by nia.
  nia.
Qed.

Lemma index_inj C R c r p c' r' p' :
  0 <= c < C -> 0 <= r < R -> 0 <= c' < C -> 0 <= r' < R ->
  c + C * (r + R * p) = c' + C * (r' + R * p') ->
  c = c' /\ r = r' /\ p = p'.
Proof.
  intros Hc Hr Hc' Hr' E.
  assert (E1 : r + R * p = r' + R * p') by nia.
  assert (E2 : p = p') by nia.
  subst p'. split; [nia|]. split; [lia|done].
Qed.

(** In a view of the invariant shape whose extent does not wrap, a
    coordinate of the extent is the cell of that number in the owned
    block, which has as many cells as the extent has coordinates. *)
Lemma view_inv_layout h v c r p :
  view_inv h v ->
  m_cols v * m_rows v * m_planes v < 2 ^ 32 ->
  in_extent v c r p ->
  exists b blk,
    m_data v = Some b /\
    operator3 v c r p = Ptr b (c + m_cols v * (r + m_rows v * p)) /\
    heap_get h b = Some blk /\
    Z.of_nat (length (cells blk)) = m_cols v * m_rows v * m_planes v.
Proof.
  intros (Hc & Hr & Hp & Ho & Hs & Hd) Hsmall (Hx & Hy & Hz).
  pose proof (index_bound _ _ _ c r p Hx Hy Hz) as Hb.
  assert (Hrc : 0 <= m_rows v * m_cols v < 2 ^ 32) by nia.
  destruct Hs as [(Hcs & Hrs & Hps)|Hzero]; [|lia].
  rewrite umul3_small in Hd by lia.
  destruct (m_data v) as [b|]; [|lia].
  destruct Hd as (blk & Hblk & _ & Hlen & _).
  exists b, blk. split; [done|]. split; [|done].
  unfold operator3. rewrite Ho, Hcs, Hrs, Hps, (umul_small _ _ Hrc). simpl.
  f_equal. lia.
Qed.

Lemma view_inv_addressable h v :
  view_inv h v ->
  m_cols v * m_rows v * m_planes v < 2 ^ 32 ->
  addressable h v.
Proof.
  intros Hv Hsmall c r p Hin.
  destruct (view_inv_layout h v c r p Hv Hsmall Hin) as (b & blk & Hd & Ha & Hb & Hl).
  exists b, (c + m_cols v * (r + m_rows v * p)), blk.
  do 3 (split; [done|]). rewrite Hl.
  destruct Hin as (? & ? & ?). by apply index_bound.
Qed.

(** ** Stores seen from other cells and other blocks *)

Lemma load_store_other h b off off' x h' :
  store h (Ptr b off) x = Some h' -> off <> off' ->
  load h' (Ptr b off') = load h (Ptr b off').
Proof.
  unfold store, load. destruct (heap_get h b) as [blk|] eqn:Hb; [|done]. simpl.
  case_decide as Hoff; [|done]. intros [= <-] Hne.
  rewrite heap_get_insert_eq by (by eapply heap_get_lt). simpl.
  case_decide; [|done]. apply list_lookup_insert_ne. lia.
Qed.

Lemma lookup_store_ne (h : heap) b off x h' b' :
  store h (Ptr b off) x = Some h' -> b' <> b -> h' !! b' = h !! b'.
Proof.
  unfold store. destruct (heap_get h b) as [blk|]; [|done]. simpl.
  case_decide; [|done]. intros [= <-] Hne. by apply list_lookup_insert_ne.
Qed.

Lemma lookup_sa_release_ne (h : heap) p b :
  p <> Some b -> sa_release h p !! b = h !! b.
Proof.
  intros Hp. unfold sa_release. destruct p as [k|]; [|done].
  destruct (heap_get h k) as [blk|]; [|done].
  assert (k <> b) by congruence.
  destruct (use_count blk) as [|[|n]]; by rewrite list_lookup_insert_ne.
Qed.

(** ** Rasterizing into a canonical view *)

Section Rasterize.

Variables (P : producer) (f : Z -> Z -> Z -> cell).
Variables (h1 : heap) (v1 : ImageView) (b : nat).

Let C := m_cols v1.
Let R := m_rows v1.
Let Pl := m_planes v1.

Hypothesis Hext : 0 <= C /\ 0 <= R /\ 0 <= Pl.

Hypothesis Hlayout : forall c r p, in_extent v1 c r p ->
  operator3 v1 c r p = Ptr b (c + C * (r + R * p)) /\
  exists blk, heap_get h1 b = Some blk /\
    Z.of_nat (length (cells blk)) = C * R * Pl.

Hypothesis Hind : forall h' : heap,
  (forall b', b' <> b -> h' !! b' = h1 !! b') ->
  forall c r p, in_extent v1 c r p -> p_eval P h' c r p = Some (f c r p).

(** The state after the first [k] cells have been written. *)
Let written (k : Z) (h' : heap) : Prop :=
  (forall b', b' <> b -> h' !! b' = h1 !! b') /\
  length <$> cells_of h' b = length <$> cells_of h1 b /\
  forall c r p, in_extent v1 c r p -> c + C * (r + R * p) < k ->
    load h' (Ptr b (c + C * (r + R * p))) = Some (f c r p).

Lemma written_start : written 0 h1.
Proof.
  split; [done|]. split; [done|]. intros c r p (Hc & Hr & Hp) Hk.
  pose proof (index_bound C R Pl c r p Hc Hr Hp). lia.
Qed.

Lemma written_step c r p h' :
  in_extent v1 c r p ->
  written (c + C * (r + R * p)) h' ->
  exists h2,
    (x ← p_eval P h' c r p; store h' (operator3 v1 c r p) x) = Some h2 /\
    written (c + 1 + C * (r + R * p)) h2.
Proof.
  intros Hin (Hfr & Hlen & Hw).
  rewrite (Hind h' Hfr c r p Hin). simpl.
  destruct (Hlayout c r p Hin) as (-> & blk & Hblk & Hl).
  assert (Hb : 0 <= c + C * (r + R * p) < C * R * Pl).
  { destruct Hin as (? & ? & ?). by apply index_bound. }
  unfold cells_of in Hlen. rewrite Hblk in Hlen. simpl in Hlen.
  destruct (heap_get h' b) as [blk'|] eqn:Hblk'; [|done].
  simpl in Hlen. injection Hlen as Hlen.
  assert (Hst := store_valid h' b (c + C * (r + R * p)) blk' (f c r p) Hblk'
                   ltac:(lia)).
  eexists. split; [exact Hst|]. split; [|split].
  - intros b' Hb'. rewrite (lookup_store_ne _ _ _ _ _ _ Hst Hb'). by apply Hfr.
  - rewrite (cells_of_store _ _ _ _ b Hst). unfold cells_of.
    rewrite Hblk', Hblk. simpl. by rewrite Hlen.
  - intros c' r' p' Hin' Hk.
    destruct (decide (c' + C * (r' + R * p') = c + C * (r + R * p))) as [E|E].
    + destruct Hin as (? & ? & ?), Hin' as (? & ? & ?).
      destruct (index_inj C R c' r' p' c r p) as (-> & -> & ->); try done.
      by apply (load_store_eq _ _ _ _ Hst).
    + rewrite (load_store_other _ _ _ _ _ _ Hst) by done. apply Hw; [done|lia].
Qed.

Lemma rasterize_canonical :
  exists h2, rasterize P h1 v1 = Some h2 /\
    (forall b', b' <> b -> h2 !! b' = h1 !! b') /\
    length <$> cells_of h2 b = length <$> cells_of h1 b /\
    forall c r p, in_extent v1 c r p ->
      load h2 (operator3 v1 c r p) = Some (f c r p).
Proof.
  destruct Hext as (HC & HR & HP).
  assert (Hmain : exists h2, rasterize P h1 v1 = Some h2 /\ written (C * R * Pl) h2).
  { unfold rasterize, planes, rows, cols. fold C R Pl.
    destruct (for_each_inv (fun p h' => written (C * R * p) h')
                (fun p => for_each (Z.to_nat R) 0 (fun r =>
                   for_each (Z.to_nat C) 0 (fun c h' =>
                     x ← p_eval P h' c r p; store h' (operator3 v1 c r p) x)))
                (Z.to_nat Pl) 0 h1) as (h2 & Hf & Hw).
    { replace (C * R * 0) with 0 by lia. apply written_start. }
    { intros p h' Hp Hw.
      destruct (for_each_inv (fun r h'' => written (C * (r + R * p)) h'')
                  (fun r => for_each (Z.to_nat C) 0 (fun c h'' =>
                     x ← p_eval P h'' c r p; store h'' (operator3 v1 c r p) x))
                  (Z.to_nat R) 0 h') as (h3 & Hf3 & Hw3).
      { by replace (C * (0 + R * p)) with (C * R * p) by lia. }
      { intros r h'' Hr Hw''.
        destruct (for_each_inv (fun c h3 => written (c + C * (r + R * p)) h3)
                    (fun c h3 => x ← p_eval P h3 c r p;
                                 store h3 (operator3 v1 c r p) x)
                    (Z.to_nat C) 0 h'') as (h4 & Hf4 & Hw4).
        { done. }
        { intros c h3 Hc Hw3. apply written_step; [|done].
          unfold in_extent. fold C R Pl. lia. }
        exists h4. split; [done|].
        by replace (C * (r + 1 + R * p)) with (0 + Z.of_nat (Z.to_nat C) + C * (r + R * p))
          by lia. }
      exists h3. split; [done|].
      by replace (C * R * (p + 1)) with (C * (0 + Z.of_nat (Z.to_nat R) + R * p)) by lia. }
    exists h2. split; [done|].
    by replace (C * R * Pl) with (C * R * (0 + Z.of_nat (Z.to_nat Pl))) by lia. }
  destruct Hmain as (h2 & Hr & Hfr & Hlen & Hw).
  exists h2. do 3 (split; [done|]). intros c r p Hin.
  destruct (Hlayout c r p Hin) as (-> & _). apply Hw; [done|].
  destruct Hin as (? & ? & ?). by apply index_bound.
Qed.

End Rasterize.

(** ** Assignment from a producer *)

(** What a [set_size] leaves of the old store, and where its view points. *)
Lemma set_size_frame T h v c r p h1 v1 :
  handle_in h v ->
  set_size T h v c r p = Some (h1, v1) ->
  (forall b, (b < length h)%nat -> m_data v <> Some b -> h1 !! b = h !! b) /\
  (forall b, m_data v1 = Some b -> m_data v = Some b \/ b = length h) /\
  cols v1 = c /\ rows v1 = r /\ planes v1 = p.
Proof.
  intros Hin.
  destruct (decide (c = m_cols v /\ r = m_rows v /\ p = m_planes v)) as [Hs|Hs].
  { rewrite set_size_same by done. intros [= <- <-].
    destruct Hs as (-> & -> & ->). auto. }
  destruct (decide (umul (umul c r) p = 0)) as [Hz|Hz].
  - rewrite set_size_empty by done. intros [= <- <-].
    split; [|done]. intros b _ Hb. by apply lookup_sa_release_ne.
  - rewrite set_size_alloc by done. intros [= <- <-].
    split; [|split; [|done]].
    + intros b Hlt Hb. rewrite lookup_app_l by (by rewrite length_sa_release).
      by apply lookup_sa_release_ne.
    + intros b [= <-]. by right.
Qed.

(** C1, for producers that do not read the sink. For a producer whose
    values do not depend on the buffer of [v] and whose extent has at most
    2^32-1 coordinates, [v = P] returns, gives [v] the extent of [P], and
    leaves at every coordinate of that extent the value of [P] there. *)
Theorem assign_rasterizes T h v P f :
  view_inv h v ->
  is_unsigned (p_cols P) -> is_unsigned (p_rows P) -> is_unsigned (p_planes P) ->
  p_cols P * p_rows P * p_planes P < 2 ^ 32 ->
  independent_of P h v f ->
  exists h' v',
    assign T h v P = Some (h', v') /\
    cols v' = p_cols P /\ rows v' = p_rows P /\ planes v' = p_planes P /\
    forall c r p, in_extent v' c r p -> int_args c r p ->
      load h' (operator3 v' c r p) = Some (f c r p).
Proof.
  intros Hv Hc Hr Hp Hsmall Hind.
  assert (Hin : handle_in h v) by (by apply owns_handle_in, view_inv_owns).
  destruct (set_size_total T h v (p_cols P) (p_rows P) (p_planes P) Hin)
    as (h1 & v1 & Hs).
  pose proof (set_size_view_inv _ _ _ _ _ _ _ _ Hv Hc Hr Hp Hs) as Hv1.
  destruct (set_size_frame _ _ _ _ _ _ _ _ Hin Hs) as (Hfr & Hsink & Ec & Er & Ep).
  unfold cols, rows, planes in Ec, Er, Ep.
  assert (Hsmall1 : m_cols v1 * m_rows v1 * m_planes v1 < 2 ^ 32)
    by (by rewrite Ec, Er, Ep).
  set (b := default 0%nat (m_data v1)).
  destruct (rasterize_canonical P f h1 v1 b) as (h2 & Hras & _ & _ & Hval).
  { rewrite Ec, Er, Ep. unfold is_unsigned in *. lia. }
  { intros c r p Hce.
    destruct (view_inv_layout h1 v1 c r p Hv1 Hsmall1 Hce) as (k & blk & Hk & Ha & Hb & Hl).
    unfold b. rewrite Hk. simpl. eauto. }
  { intros h' Hh' c r p Hce.
    destruct (view_inv_layout h1 v1 c r p Hv1 Hsmall1 Hce) as (k & blk & Hk & _).
    assert (Hbk : b = k) by (unfold b; by rewrite Hk). 
    destruct Hce as (Hx & Hy & Hz). rewrite Ec in Hx. rewrite Er in Hy. rewrite Ep in Hz.
    apply Hind; try done. intros b' Hlt Hb'.
    rewrite <- (Hfr b' Hlt Hb'). apply Hh'. rewrite Hbk.
    destruct (Hsink k Hk) as [Hold| ->]; [congruence|lia]. }
  exists h2, v1. unfold assign. rewrite Hs. simpl. rewrite Hras. simpl.
  do 4 (split; [done|]). intros c r p Hce _. by apply Hval.
Qed.

(** ** A resize to another extent *)

(** C2, for fundamental pixel types and non-empty extents. A [set_size]
    to another extent with a non-zero element count of at most 2^32-1
    drops the old buffer reference, gives the view a fresh buffer of
    [cols*rows*planes] elements owned by it alone, and the canonical
    strides; for a fundamental pixel type every element is zero, so every
    in-range coordinate reads zero. *)
Theorem set_size_fresh_buffer T h v c r p :
  owns h v ->
  is_unsigned c -> is_unsigned r -> is_unsigned p ->
  ~ (c = m_cols v /\ r = m_rows v /\ p = m_planes v) ->
  0 < c * r * p < 2 ^ 32 ->
  exists h' v' blk,
    set_size T h v c r p = Some (h', v') /\
    take (length h) h' = sa_release h (m_data v) /\
    m_data v' = Some (length h) /\ heap_get h (length h) = None /\
    heap_get h' (length h) = Some blk /\ use_count blk = 1%nat /\
    Z.of_nat (length (cells blk)) = c * r * p /\
    cols v' = c /\ rows v' = r /\ planes v' = p /\
    m_cstride v' = 1 /\ m_rstride v' = c /\ m_pstride v' = r * c /\
    addressable h' v' /\
    (is_fundamental T = true ->
       forall x y z, in_extent v' x y z -> int_args x y z ->
         load h' (operator3 v' x y z) = Some (Val 0)).
Proof.
  intros Ho Hc Hr Hp Hne Hvol.
  assert (Hin : handle_in h v) by (by apply owns_handle_in).
  assert (Hn : umul (umul c r) p = c * r * p) by (apply umul3_small; lia).
  assert (Hrc : umul r c = r * c).
  { unfold is_unsigned in *. apply umul_small.
    assert (1 <= p) by nia. assert (0 <= r * c) by nia. nia. }
  assert (Hs := set_size_alloc T h v c r p Hin Hne ltac:(lia)).
  pose proof (resized_view_inv _ _ _ _ _ _ _ _ Hin Hc Hr Hp Hne Hs) as Hv'.
  rewrite Hn in Hs.
  eexists _, _, _. split; [exact Hs|].
  split. { by rewrite take_app_length' by (by rewrite length_sa_release). }
  split; [done|]. split; [apply heap_get_fresh|].
  split.
  { rewrite <- (length_sa_release h (m_data v)). by rewrite heap_get_app_new. }
  split; [done|]. split. { simpl. rewrite length_replicate. lia. }
  do 5 (split; [done|]). split; [done|].
  rewrite Hn in Hv'.
  assert (Ha : addressable
    (sa_release h (m_data v)
       ++ [Some (Block 1 (replicate (Z.to_nat (c * r * p)) (fresh_cell T)))])
    (resized (Some (length h)) c r p)).
  { apply view_inv_addressable; [done|]. simpl. lia. }
  split; [done|].
  intros Hf x y z Hxyz _.
  destruct (Ha x y z Hxyz) as (k & off & blk & Hk & Hop & Hblk & Hoff).
  simpl in Hk. assert (k = length h) by congruence. subst k. rewrite Hop.
  rewrite <- (length_sa_release h (m_data v)), heap_get_app_new in Hblk.
  injection Hblk as <-. simpl in Hoff. rewrite length_replicate in Hoff.
  unfold load. rewrite <- (length_sa_release h (m_data v)), heap_get_app_new. simpl.
  rewrite decide_True by lia. unfold fresh_cell. rewrite Hf.
  apply lookup_replicate_2. lia.
Qed.

(** ** The addressing invariant *)

(** Without wrap-around [set_size] establishes the addressing invariant;
    copies keep it, and [reset] leaves no coordinate to address. *)
Lemma set_size_addressable T h v c r p h' v' :
  view_inv h v ->
  is_unsigned c -> is_unsigned r -> is_unsigned p ->
  c * r * p < 2 ^ 32 ->
  set_size T h v c r p = Some (h', v') ->
  addressable h' v'.
Proof.
  intros Hv Hc Hr Hp Hsmall Hs.
  pose proof (set_size_view_inv _ _ _ _ _ _ _ _ Hv Hc Hr Hp Hs) as Hv'.
  destruct (set_size_frame _ _ _ _ _ _ _ _ (owns_handle_in _ _ (view_inv_owns _ _ Hv)) Hs)
    as (_ & _ & Ec & Er & Ep).
  unfold cols, rows, planes in *.
  apply view_inv_addressable; [done|]. by rewrite Ec, Er, Ep.
Qed.

Lemma copy_ctor_addressable h v h' v' :
  addressable h v -> copy_ctor h v = (h', v') -> addressable h' v'.
Proof.
  intros Ha. rewrite copy_ctor_eq. intros [= <- <-]. by apply addressable_sa_copy.
Qed.

Lemma reset_addressable h v : addressable (fst (reset h v)) (snd (reset h v)).
Proof. intros c r p (Hc & _). simpl in Hc. lia. Qed.

(** When the product of the extent wraps to [n <> 0], a row [y] with
    [n <= y*cols] lies outside the [n] elements that were allocated. *)
Lemma wrapped_extent_not_addressable T c r p y :
  is_unsigned c -> is_unsigned r -> is_unsigned p ->
  umul (umul c r) p <> 0 ->
  0 < c -> 0 <= y < r -> 0 < p ->
  umul (umul c r) p <= y * c ->
  exists h' v' blk,
    set_size T [] default_ctor c r p = Some (h', v') /\
    cols v' = c /\ rows v' = r /\ planes v' = p /\
    m_data v' = Some 0%nat /\ heap_get h' 0 = Some blk /\
    Z.of_nat (length (cells blk)) = umul (umul c r) p /\
    in_extent v' 0 y 0 /\
    operator3 v' 0 y 0 = Ptr 0 (y * c) /\
    load h' (operator3 v' 0 y 0) = None /\
    ~ addressable h' v'.
Proof.
  intros Hc Hr Hp Hnz Hc0 Hy Hp0 Hout.
  pose proof (umul_nonneg (umul c r) p) as Hn.
  assert (Hs := set_size_alloc T [] default_ctor c r p).
  specialize (Hs ltac:(by intros b) ltac:(simpl; lia) Hnz).
  change (sa_release [] (m_data default_ctor)) with (@nil (option block)) in Hs.
  change (length (@nil (option block))) with 0%nat in Hs.
  set (blk := Block 1 (replicate (Z.to_nat (umul (umul c r) p)) (fresh_cell T))) in *.
  assert (Hget : heap_get ([] ++ [Some blk]) 0 = Some blk) by done.
  assert (Hlen : Z.of_nat (length (cells blk)) = umul (umul c r) p).
  { unfold blk. cbn [cells]. rewrite length_replicate. lia. }
  assert (Hop : operator3 (resized (Some 0%nat) c r p) 0 y 0 = Ptr 0 (y * c)).
  { unfold operator3. simpl. f_equal. lia. }
  assert (Hext : in_extent (resized (Some 0%nat) c r p) 0 y 0).
  { unfold in_extent. simpl. lia. }
  exists ([] ++ [Some blk]), (resized (Some 0%nat) c r p), blk.
  split; [exact Hs|]. do 4 (split; [done|]).
  split; [exact Hget|]. split; [exact Hlen|]. split; [exact Hext|].
  split; [exact Hop|]. split.
  - rewrite Hop. unfold load. rewrite Hget. cbn [mbind option_bind].
    rewrite decide_True by lia. apply lookup_ge_None_2. lia.
  - intros Ha. destruct (Ha 0 y 0 Hext) as (b & off & blk' & _ & Hop' & Hb & Hoff).
    rewrite Hop in Hop'. injection Hop' as <- <-.
    rewrite Hget in Hb. injection Hb as <-. lia.
Qed.

(** C5. The invariant fails after [set_size(65536, 65537, 1)] on an
    empty view: the product 2^32 + 65536 wraps to 65536, the view owns a
    block of 65536 elements, and its in-range coordinate (0, 65536, 0)
    maps to offset 2^32, outside the block. *)
Theorem set_size_overflow_breaks_addressing :
  exists h' v' blk,
    set_size Fundamental [] default_ctor 65536 65537 1 = Some (h', v') /\
    cols v' = 65536 /\ rows v' = 65537 /\ planes v' = 1 /\
    m_data v' = Some 0%nat /\ heap_get h' 0 = Some blk /\
    Z.of_nat (length (cells blk)) = 65536 /\
    in_extent v' 0 65536 0 /\
    operator3 v' 0 65536 0 = Ptr 0 4294967296 /\
    load h' (operator3 v' 0 65536 0) = None /\
    ~ addressable h' v'.
Proof.
  apply (wrapped_extent_not_addressable Fundamental 65536 65537 1 65536);
    unfold is_unsigned; try lia.
  - discriminate.
  - discriminate.
Qed.

(** ** Instances and counterexamples *)

(** The invariant of a concrete view, by evaluation. *)
Ltac concrete_view_inv :=
  unfold view_inv, canonical_strides, is_unsigned; simpl;
  repeat split; try lia; auto;
  eexists; split; [reflexivity|]; simpl; repeat split; lia.

Lemma image43_view_inv : view_inv image43_heap image43.
Proof. concrete_view_inv. Qed.

Lemma image43_shared_view_inv : view_inv image43_shared_heap image43.
Proof. concrete_view_inv. Qed.

Lemma row3_view_inv : view_inv row3_heap row3.
Proof. concrete_view_inv. Qed.

(** The example states are what the operations compute. *)
Lemma image43_built :
  set_size Fundamental [] default_ctor 4 3 1 = Some (image43_heap, image43).
Proof. reflexivity. Qed.

Lemma image43_shared_built :
  (h1 ← store image43_heap (operator2 image43 2 1) (Val 7);
   Some (copy_ctor h1 image43))
  = Some (image43_shared_heap, image43).
Proof. reflexivity. Qed.

Lemma assign_rasterizes_witness :
  view_inv [] default_ctor /\
  independent_of ramp32 [] default_ctor (fun c r _ => Val (c + 10 * r)) /\
  exists h' v',
    assign Fundamental [] default_ctor ramp32 = Some (h', v') /\
    cols v' = 3 /\ rows v' = 2 /\ planes v' = 1 /\
    forall c r p, in_extent v' c r p -> int_args c r p ->
      load h' (operator3 v' c r p) = Some (Val (c + 10 * r)).
Proof.
  assert (Hv : view_inv [] default_ctor) by apply default_ctor_view_inv.
  assert (Hi : independent_of ramp32 [] default_ctor (fun c r _ => Val (c + 10 * r))).
  { intros h' _ c r p _ _ _. reflexivity. }
  split; [exact Hv|]. split; [exact Hi|].
  apply (assign_rasterizes Fundamental [] default_ctor ramp32
           (fun c r _ => Val (c + 10 * r)) Hv);
    [unfold is_unsigned; simpl; lia ..| simpl; lia | exact Hi].
Defined.

(** C1, counterexample. Assigning to a row 1, 2, 3 its own periodic
    shift by one column leaves 2, 3, 2: the last pixel is not the value
    the producer had there before the assignment (1), and the first is not
    the value it has there afterwards (3). *)
Lemma assign_aliased_producer_counterexample :
  view_inv row3_heap row3 /\
  exists h' v',
    assign Fundamental row3_heap row3 (shifted row3) = Some (h', v') /\
    in_extent v' 2 0 0 /\ in_extent v' 0 0 0 /\
    p_eval (shifted row3) row3_heap 2 0 0 = Some (Val 1) /\
    load h' (operator3 v' 2 0 0) = Some (Val 2) /\
    p_eval (shifted row3) h' 0 0 0 = Some (Val 3) /\
    load h' (operator3 v' 0 0 0) = Some (Val 2) /\
    load h' (operator3 v' 2 0 0) <> p_eval (shifted row3) row3_heap 2 0 0 /\
    load h' (operator3 v' 0 0 0) <> p_eval (shifted row3) h' 0 0 0.
Proof.
  split; [apply row3_view_inv|].
  exists [Some (Block 1 [Val 2; Val 3; Val 2])], row3.
  split; [reflexivity|]. unfold in_extent. simpl.
  repeat split; try lia; discriminate.
Qed.

Lemma set_size_fresh_buffer_witness :
  owns [] default_ctor /\
  exists h' v' blk,
    set_size Fundamental [] default_ctor 4 3 1 = Some (h', v') /\
    take (length (@nil (option block))) h' = sa_release [] (m_data default_ctor) /\
    m_data v' = Some (length (@nil (option block))) /\
    heap_get [] (length (@nil (option block))) = None /\
    heap_get h' (length (@nil (option block))) = Some blk /\
    use_count blk = 1%nat /\
    Z.of_nat (length (cells blk)) = 4 * 3 * 1 /\
    cols v' = 4 /\ rows v' = 3 /\ planes v' = 1 /\
    m_cstride v' = 1 /\ m_rstride v' = 4 /\ m_pstride v' = 3 * 4 /\
    addressable h' v' /\
    (is_fundamental Fundamental = true ->
       forall x y z, in_extent v' x y z -> int_args x y z ->
         load h' (operator3 v' x y z) = Some (Val 0)).
Proof.
  split; [exact I|].
  apply (set_size_fresh_buffer Fundamental [] default_ctor 4 3 1 I);
    [unfold is_unsigned; lia ..| simpl; lia | lia].
Defined.

(** C2, counterexample. A resize to the extent 5x0x1, which differs
    from the current one, allocates nothing; and a resize of a view of a
    trivially-copyable struct type leaves its element indeterminate. *)
Lemma set_size_claimed_buffer_counterexample :
  (exists h' v',
     set_size Fundamental [] default_ctor 5 0 1 = Some (h', v') /\
     h' = [] /\ m_data v' = None) /\
  trivially_copyable Pod = true /\
  (exists h' v',
     set_size Pod [] default_ctor 1 1 1 = Some (h', v') /\
     in_extent v' 0 0 0 /\
     load h' (operator3 v' 0 0 0) = Some Indet).
Proof.
  split; [by eexists _, _|]. split; [done|].
  eexists _, _. split; [reflexivity|]. unfold in_extent. simpl. repeat split; lia.
Qed.

Lemma copy_shares_buffer_witness :
  owns image43_heap image43 /\ addressable image43_heap image43 /\
  m_data image43 = m_data image43 /\ m_origin image43 = m_origin image43 /\
  forall ks, Forall (access_ok image43) ks ->
    exists hn,
      run_accesses (fst (copy_ctor image43_heap image43)) image43 image43 ks = Some hn /\
      forall c r p x, in_extent image43 c r p -> int_args c r p ->
        (exists h', store hn (operator3 image43 c r p) x = Some h' /\
                    load h' (operator3 image43 c r p) = Some x) /\
        (exists h', store hn (operator3 image43 c r p) x = Some h' /\
                    load h' (operator3 image43 c r p) = Some x).
Proof.
  assert (Ho : owns image43_heap image43).
  { eexists. split; [reflexivity|]. simpl. lia. }
  assert (Ha : addressable image43_heap image43).
  { apply view_inv_addressable; [apply image43_view_inv|]. simpl. lia. }
  split; [exact Ho|]. split; [exact Ha|].
  apply (copy_shares_buffer image43_heap image43 default_ctor
           (fst (copy_ctor image43_heap image43)) image43 Ho Ha).
  left. reflexivity.
Defined.


Lemma operator_call_strided_witness :
  int_args 1 1 0 /\
  operator3 image43_mirrored 1 1 0 = Ptr 0 6 /\
  operator2 image43_mirrored 1 1 = operator3 image43_mirrored 1 1 0 /\
  (0 <= 6 -> load image43_shared_heap (operator3 image43_mirrored 1 1 0)
             = <[6%nat := Val 7]> (replicate 12 (Val 0)) !! Z.to_nat 6) /\
  (6 < 0 -> load image43_shared_heap (operator3 image43_mirrored 1 1 0) = None).
Proof.
  assert (Hi : int_args 1 1 0) by (unfold int_args, is_int; lia).
  split; [exact Hi|].
  exact (operator_call_strided image43_mirrored image43_shared_heap 0 11
           (Block 2 (<[6%nat := Val 7]> (replicate 12 (Val 0)))) 1 1 0
           Hi eq_refl eq_refl).
Defined.

Lemma self_assign_identity_witness :
  owns image43_shared_heap image43 /\ addressable image43_shared_heap image43 /\
  assign_view Fundamental image43_shared_heap image43 image43
  = Some (image43_shared_heap, image43).
Proof.
  assert (Ho : owns image43_shared_heap image43).
  { eexists. split; [reflexivity|]. simpl. lia. }
  assert (Ha : addressable image43_shared_heap image43).
  { apply view_inv_addressable; [apply image43_shared_view_inv|]. simpl. lia. }
  split; [exact Ho|]. split; [exact Ha|].
  exact (self_assign_identity Fundamental image43_shared_heap image43 Ho Ha).
Defined.

Lemma assign_vil_plane_mismatch_witness :
  3 <> 1 /\ nplanes grey_vil <> 3 /\
  assign_vil 3 (fun h _ _ => Some h) Fundamental image43_heap image43 grey_vil
  = Throw ArgumentErr image43_heap image43.
Proof.
  assert (H1 : 3 <> 1) by lia.
  assert (H2 : nplanes grey_vil <> 3) by (simpl; lia).
  split; [exact H1|]. split; [exact H2|].
  exact (assign_vil_plane_mismatch 3 (fun h _ _ => Some h) Fundamental
           image43_heap image43 grey_vil H1 H2).
Defined.

Lemma set_size_wraps_element_count_witness :
  view_inv [] default_ctor /\ 2 ^ 32 - 1 < 65536 * 65537 * 1 /\
  exists h' v',
    set_size Fundamental [] default_ctor 65536 65537 1 = Some (h', v') /\
    cols v' = 65536 /\ rows v' = 65537 /\ planes v' = 1 /\
    ((65536 * 65537 * 1) mod 2 ^ 32 <> 0 ->
       exists b blk, m_data v' = Some b /\ heap_get h' b = Some blk /\
         Z.of_nat (length (cells blk)) = (65536 * 65537 * 1) mod 2 ^ 32 /\
         Z.of_nat (length (cells blk)) < 65536 * 65537 * 1) /\
    ((65536 * 65537 * 1) mod 2 ^ 32 = 0 -> m_data v' = None /\ m_origin v' = Null).
Proof.
  assert (Hv : view_inv [] default_ctor) by apply default_ctor_view_inv.
  assert (Hb : 2 ^ 32 - 1 < 65536 * 65537 * 1) by lia.
  split; [exact Hv|]. split; [exact Hb|].
  apply (set_size_wraps_element_count Fundamental [] default_ctor 65536 65537 1 Hv);
    [unfold is_unsigned; lia ..| exact Hb].
Defined.

Lemma set_size_zero_volume_witness :
  (5 = 0 \/ 0 = 0 \/ 1 = 0) /\
  ~ (5 = m_cols image43 /\ 0 = m_rows image43 /\ 1 = m_planes image43) /\
  (exists v',
     set_size Fundamental image43_heap image43 5 0 1
     = Some (sa_release image43_heap (m_data image43), v') /\
     m_data v' = None /\ m_origin v' = Null /\
     cols v' = 5 /\ rows v' = 0 /\ planes v' = 1 /\
     m_cstride v' = 1 /\ m_rstride v' = 5 /\ m_pstride v' = (0 * 5) mod 2 ^ 32) /\
  (cols default_ctor = 0 /\ rows default_ctor = 0 /\ planes default_ctor = 0 /\
   m_cstride default_ctor = 0) /\
  snd (reset image43_heap image43) = default_ctor.
Proof.
  assert (Hz : 5 = 0 \/ 0 = 0 \/ 1 = 0) by lia.
  assert (Hne : ~ (5 = m_cols image43 /\ 0 = m_rows image43 /\ 1 = m_planes image43))
    by (simpl; lia).
  split; [exact Hz|]. split; [exact Hne|].
  apply (set_size_zero_volume Fundamental image43_heap image43 5 0 1);
    [unfold is_unsigned; lia ..| exact Hz | exact Hne].
Defined.

(** C10, counterexample. [set_size(0,0,0)] on an empty view has a zero
    argument and returns at once: the column stride stays 0. *)
Lemma set_size_same_zero_extent_counterexample :
  exists h' v',
    set_size Fundamental [] default_ctor 0 0 0 = Some (h', v') /\
    m_data v' = None /\ m_origin v' = Null /\
    m_cstride v' = 0 /\ m_cstride v' <> 1.
Proof. eexists _, _. split; [reflexivity|]. simpl. repeat split; lia. Qed.

(** * Further properties of the code *)

(** ** Reference counting: [reset] and copies *)

(** X1. [reset] empties the view and gives up its share of the buffer:
    the last owner deletes the block, any other owner leaves it with its
    cells and one owner fewer; no other block is touched. *)
Theorem reset_releases_buffer h v b blk :
  m_data v = Some b -> heap_get h b = Some blk -> (1 <= use_count blk)%nat ->
  snd (reset h v) = default_ctor /\
  (use_count blk = 1%nat -> heap_get (fst (reset h v)) b = None) /\
  ((2 <= use_count blk)%nat ->
     heap_get (fst (reset h v)) b = Some (Block (pred (use_count blk)) (cells blk))) /\
  (forall b', b' <> b -> (fst (reset h v)) !! b' = h !! b') /\
  length (fst (reset h v)) = length h.
Proof.
  intros Hd Hb Hc. simpl. rewrite Hd.
  assert (Hlt : (b < length h)%nat) by (by eapply heap_get_lt).
  split; [done|]. split; [|split; [|split]].
  - intros H1. unfold sa_release. rewrite Hb, H1. by apply heap_get_insert_eq.
  - intros H2. by apply heap_get_sa_release_shared.
  - intros b' Hne. apply lookup_sa_release_ne. congruence.
  - apply length_sa_release.
Qed.

Lemma reset_releases_buffer_witness :
  m_data image43 = Some 0%nat /\
  snd (reset image43_shared_heap image43) = default_ctor /\
  ((2 = 1)%nat -> heap_get (fst (reset image43_shared_heap image43)) 0 = None) /\
  ((2 <= 2)%nat ->
     heap_get (fst (reset image43_shared_heap image43)) 0
     = Some (Block (pred 2) (<[6%nat := Val 7]> (replicate 12 (Val 0))))) /\
  (forall b', b' <> 0%nat ->
     (fst (reset image43_shared_heap image43)) !! b' = image43_shared_heap !! b') /\
  length (fst (reset image43_shared_heap image43)) = length image43_shared_heap.
Proof.
  split; [reflexivity|].
  exact (reset_releases_buffer image43_shared_heap image43 0
           (Block 2 (<[6%nat := Val 7]> (replicate 12 (Val 0))))
           eq_refl eq_refl ltac:(simpl; lia)).
Defined.

(** X2. Copy construction is shallow: it allocates no block, changes no
    cell of any block, hands out the same description of the image, and
    adds one owner to the shared block. *)
Theorem copy_ctor_shallow h a h1 b :
  copy_ctor h a = (h1, b) ->
  b = a /\ length h1 = length h /\
  (forall k, cells_of h1 k = cells_of h k) /\
  (forall k blk, m_data a = Some k -> heap_get h k = Some blk ->
     heap_get h1 k = Some (Block (S (use_count blk)) (cells blk))) /\
  (forall k, m_data a <> Some k -> h1 !! k = h !! k).
Proof.
  rewrite copy_ctor_eq. intros [= <- <-].
  split; [done|]. split; [apply length_sa_copy|].
  split; [intros k; apply cells_of_sa_copy|]. split.
  - intros k blk -> Hb. by apply heap_get_sa_copy_eq.
  - intros k Hk. unfold sa_copy. destruct (m_data a) as [k'|]; [|done].
    destruct (heap_get h k'); [|done].
    apply list_lookup_insert_ne. congruence.
Qed.

Lemma copy_ctor_shallow_witness :
  image43 = image43 /\
  length (fst (copy_ctor image43_heap image43)) = length image43_heap /\
  (forall k, cells_of (fst (copy_ctor image43_heap image43)) k = cells_of image43_heap k) /\
  (forall k blk, m_data image43 = Some k -> heap_get image43_heap k = Some blk ->
     heap_get (fst (copy_ctor image43_heap image43)) k
     = Some (Block (S (use_count blk)) (cells blk))) /\
  (forall k, m_data image43 <> Some k ->
     (fst (copy_ctor image43_heap image43)) !! k = image43_heap !! k).
Proof.
  exact (copy_ctor_shallow image43_heap image43
           (fst (copy_ctor image43_heap image43)) image43 eq_refl).
Defined.

(** X3. A copy that is reset again leaves the store exactly as it was
    before the copy was made. *)
Theorem copy_then_reset_restores h a h1 b :
  owns h a -> copy_ctor h a = (h1, b) -> reset h1 b = (h, default_ctor).
Proof.
  intros Ho. rewrite copy_ctor_eq. intros [= <- <-]. unfold reset.
  rewrite sa_release_sa_copy; [done|].
  intros k Hk. unfold owns in Ho. by rewrite Hk in Ho.
Qed.

Lemma copy_then_reset_restores_witness :
  owns image43_heap image43 /\
  reset (fst (copy_ctor image43_heap image43)) image43 = (image43_heap, default_ctor).
Proof.
  assert (Ho : owns image43_heap image43).
  { eexists. split; [reflexivity|]. simpl. lia. }
  split; [exact Ho|].
  exact (copy_then_reset_restores image43_heap image43
           (fst (copy_ctor image43_heap image43)) image43 Ho eq_refl).
Defined.

(** ** More on [set_size] *)

(** X4. [set_size] is idempotent: repeating a call with the same
    arguments returns at once and changes nothing. *)
Theorem set_size_idempotent T h v c r p h1 v1 :
  handle_in h v ->
  set_size T h v c r p = Some (h1, v1) ->
  set_size T h1 v1 c r p = Some (h1, v1).
Proof.
  intros Hin Hs.
  destruct (set_size_frame _ _ _ _ _ _ _ _ Hin Hs) as (_ & _ & Ec & Er & Ep).
  apply set_size_same. unfold cols, rows, planes in *. by rewrite Ec, Er, Ep.
Qed.

Lemma set_size_idempotent_witness :
  handle_in image43_heap image43 /\
  set_size Fundamental image43_heap image43 2 2 1
  = Some ([None; Some (Block 1 (replicate 4 (Val 0)))], resized (Some 1%nat) 2 2 1) /\
  set_size Fundamental [None; Some (Block 1 (replicate 4 (Val 0)))]
    (resized (Some 1%nat) 2 2 1) 2 2 1
  = Some ([None; Some (Block 1 (replicate 4 (Val 0)))], resized (Some 1%nat) 2 2 1).
Proof.
  assert (Hin : handle_in image43_heap image43).
  { intros b [= <-]. simpl. lia. }
  split; [exact Hin|]. split; [reflexivity|].
  exact (set_size_idempotent Fundamental image43_heap image43 2 2 1 _ _ Hin eq_refl).
Defined.

(** X5. A [set_size] to another extent by the only owner of a buffer
    deletes that buffer and changes no other block of the old store. *)
Theorem set_size_sole_owner_frees T h v c r p b blk :
  m_data v = Some b -> heap_get h b = Some blk -> use_count blk = 1%nat ->
  ~ (c = m_cols v /\ r = m_rows v /\ p = m_planes v) ->
  exists h' v',
    set_size T h v c r p = Some (h', v') /\
    heap_get h' b = None /\ m_data v' <> Some b /\
    forall b', (b' < length h)%nat -> b' <> b -> h' !! b' = h !! b'.
Proof.
  intros Hd Hb Hc Hne.
  assert (Hlt : (b < length h)%nat) by (by eapply heap_get_lt).
  assert (Hin : handle_in h v).
  { intros b' Hb'. rewrite Hd in Hb'. by injection Hb' as <-. }
  assert (Hfree : heap_get (sa_release h (Some b)) b = None).
  { unfold sa_release. rewrite Hb, Hc. by apply heap_get_insert_eq. }
  destruct (set_size_total T h v c r p Hin) as (h' & v' & Hs).
  destruct (set_size_frame _ _ _ _ _ _ _ _ Hin Hs) as (Hfr & _).
  exists h', v'. split; [done|].
  destruct (decide (umul (umul c r) p = 0)) as [Hz|Hz].
  - rewrite set_size_empty in Hs by done. injection Hs as <- <-.
    rewrite Hd. split; [done|]. split; [done|].
    intros b' Hb' Hne'. apply lookup_sa_release_ne. congruence.
  - rewrite set_size_alloc in Hs by done. injection Hs as <- <-.
    rewrite Hd. split.
    { by rewrite heap_get_app_l by (by rewrite length_sa_release). }
    split. { simpl. intros [= E]. lia. }
    intros b' Hb' Hne'. rewrite lookup_app_l by (by rewrite length_sa_release).
    apply lookup_sa_release_ne. congruence.
Qed.

Lemma set_size_sole_owner_frees_witness :
  m_data image43 = Some 0%nat /\
  ~ (2 = m_cols image43 /\ 2 = m_rows image43 /\ 1 = m_planes image43) /\
  exists h' v',
    set_size Fundamental image43_heap image43 2 2 1 = Some (h', v') /\
    heap_get h' 0 = None /\ m_data v' <> Some 0%nat /\
    forall b', (b' < length image43_heap)%nat -> b' <> 0%nat ->
      h' !! b' = image43_heap !! b'.
Proof.
  assert (Hne : ~ (2 = m_cols image43 /\ 2 = m_rows image43 /\ 1 = m_planes image43))
    by (simpl; lia).
  split; [reflexivity|]. split; [exact Hne|].
  exact (set_size_sole_owner_frees Fundamental image43_heap image43 2 2 1 0
           (Block 1 (replicate 12 (Val 0))) eq_refl eq_refl eq_refl Hne).
Defined.

Lemma set_size_extent T h v c r p h1 v1 :
  set_size T h v c r p = Some (h1, v1) ->
  m_cols v1 = c /\ m_rows v1 = r /\ m_planes v1 = p.
Proof.
  unfold set_size. case_decide as Hs.
  { intros [= <- <-]. by destruct Hs as (-> & -> & ->). }
  destruct (decide (umul (umul c r) p = 0)); simpl;
    destruct (is_fundamental T); simpl;
    try (destruct (memset_zero _ _ _); simpl); intros [= <- <-] || intros [=]; done.
Qed.

Lemma load_new_block (h : heap) n cs off :
  0 <= off ->
  load (h ++ [Some (Block n cs)]) (Ptr (length h) off) = cs !! Z.to_nat off.
Proof.
  intros Hoff. unfold load. rewrite heap_get_app_new. simpl. by rewrite decide_True.
Qed.

(** X6. The sized constructor leaves every block of the existing store
    as it is.  When the extent has at most 2^32-1 coordinates the new view
    reports it, every coordinate is addressable, and each pixel holds zero
    for a fundamental type and the default-initialised value otherwise; an
    empty extent allocates nothing. *)
Theorem sized_ctor_fresh_image T h c r p :
  is_unsigned c -> is_unsigned r -> is_unsigned p ->
  c * r * p < 2 ^ 32 ->
  exists h' v',
    sized_ctor T h c r p = Some (h', v') /\
    take (length h) h' = h /\
    cols v' = c /\ rows v' = r /\ planes v' = p /\
    addressable h' v' /\
    (c * r * p = 0 -> h' = h /\ m_data v' = None) /\
    forall x y z, in_extent v' x y z ->
      load h' (operator3 v' x y z)
      = Some (if is_fundamental T then Val 0 else default_init T).
Proof.
  intros Hc Hr Hp Hsmall. unfold sized_ctor.
  assert (Hin : handle_in h default_ctor) by (by intros b).
  pose proof (default_ctor_view_inv h) as Hv0.
  assert (Hn : umul (umul c r) p = c * r * p).
  { unfold is_unsigned in *. apply umul3_small. nia. }
  destruct (decide (c = m_cols default_ctor /\ r = m_rows default_ctor
                    /\ p = m_planes default_ctor)) as [Hs|Hs].
  { rewrite set_size_same by done. destruct Hs as (-> & -> & ->).
    exists h, default_ctor. split; [done|]. split; [by rewrite take_ge|].
    do 3 (split; [done|]). split; [|split; [done|]].
    - intros x y z (Hx & _). simpl in Hx. lia.
    - intros x y z (Hx & _). simpl in Hx. lia. }
  destruct (decide (c * r * p = 0)) as [Hz|Hz].
  { rewrite set_size_empty by (done || lia). simpl.
    eexists _, _. split; [done|]. split; [by rewrite take_ge|].
    do 3 (split; [done|]).
    assert (Hno : forall x y z, ~ in_extent (resized None c r p) x y z).
    { intros x y z (Hx & Hy & Hzz). simpl in *.
      assert (0 < c * r) by nia. assert (0 < c * r * p) by nia. lia. }
    split; [|split; [done|]].
    - intros x y z Hxyz. by destruct (Hno x y z).
    - intros x y z Hxyz. by destruct (Hno x y z). }
  assert (Hs' := set_size_alloc T h default_ctor c r p Hin Hs ltac:(lia)).
  pose proof (resized_view_inv _ _ _ _ _ _ _ _ Hin Hc Hr Hp Hs Hs') as Hv'.
  rewrite Hn in Hs', Hv'. simpl in Hs', Hv'.
  eexists _, _. split; [exact Hs'|]. split; [by rewrite take_app_length|].
  do 3 (split; [done|]).
  assert (Hsm : m_cols (resized (Some (length h)) c r p)
                * m_rows (resized (Some (length h)) c r p)
                * m_planes (resized (Some (length h)) c r p) < 2 ^ 32) by done.
  split; [by apply view_inv_addressable|]. split; [lia|].
  intros x y z Hxyz.
  destruct (view_inv_layout _ _ x y z Hv' Hsm Hxyz) as (k & blk & Hk & Hop & _).
  simpl in Hk. assert (k = length h) by congruence. subst k. rewrite Hop.
  destruct Hxyz as (Hx & Hy & Hzz).
  pose proof (index_bound _ _ _ x y z Hx Hy Hzz) as Hb. simpl in Hb.
  cbn [m_cols m_rows resized].
  rewrite load_new_block by lia. unfold fresh_cell.
  apply lookup_replicate_2. lia.
Qed.

Lemma sized_ctor_fresh_image_witness :
  4 * 3 * 1 < 2 ^ 32 /\
  exists h' v',
    sized_ctor Fundamental image43_heap 4 3 1 = Some (h', v') /\
    take (length image43_heap) h' = image43_heap /\
    cols v' = 4 /\ rows v' = 3 /\ planes v' = 1 /\
    addressable h' v' /\
    (4 * 3 * 1 = 0 -> h' = image43_heap /\ m_data v' = None) /\
    forall x y z, in_extent v' x y z ->
      load h' (operator3 v' x y z)
      = Some (if is_fundamental Fundamental then Val 0 else default_init Fundamental).
Proof.
  assert (Hs : 4 * 3 * 1 < 2 ^ 32) by lia.
  split; [exact Hs|].
  apply (sized_ctor_fresh_image Fundamental image43_heap 4 3 1);
    [unfold is_unsigned; lia ..| exact Hs].
Defined.

(** ** More on the VIL interop *)



(** X8. When the plane check passes, the view is resized to
    [ni x nj] with [nplanes] planes for a one-channel pixel type and one
    plane otherwise, and the wrapper handed to [vil_copy_reformat] starts
    at the view's origin and has exactly the source's [ni], [nj] and
    [nplanes]. *)
Theorem assign_vil_wrapper_matches channels vil_copy_reformat T h v src :
  handle_in h v ->
  is_unsigned channels -> is_unsigned (nplanes src) ->
  channels = 1 \/ nplanes src = channels ->
  exists h1 v1 w,
    set_size T h v (ni src) (nj src)
      (if decide (channels = 1) then nplanes src else 1) = Some (h1, v1) /\
    cols v1 = ni src /\ rows v1 = nj src /\
    vil_view channels v1 = inr w /\
    top_left_ptr w = m_origin v1 /\
    ni w = ni src /\ nj w = nj src /\ nplanes w = nplanes src /\
    assign_vil channels vil_copy_reformat T h v src
    = match vil_copy_reformat h1 src w with
      | Some h2 => Return h2 v1
      | None => Undefined
      end.
Proof.
  intros Hin Hch Hnp Hok.
  destruct (set_size_total T h v (ni src) (nj src)
              (if decide (channels = 1) then nplanes src else 1) Hin)
    as (h1 & v1 & Hs).
  destruct (set_size_extent _ _ _ _ _ _ _ _ Hs) as (Ec & Er & Ep).
  assert (Hpl : m_planes v1 = 1 \/ channels = 1).
  { rewrite Ep. destruct (decide (channels = 1)); [by right|by left]. }
  assert (Hn : umul channels (m_planes v1) = nplanes src).
  { rewrite Ep. unfold is_unsigned, umul, wrap_unsigned in *.
    destruct (decide (channels = 1)) as [->|Hc1].
    - rewrite Z.mul_1_l. by apply Z.mod_small.
    - destruct Hok as [?|Hok]; [done|]. rewrite Z.mul_1_r, Hok.
      apply Z.mod_small. lia. }
  eexists h1, v1, _. split; [exact Hs|]. do 2 (split; [done|]).
  split. { unfold vil_view. by rewrite bool_decide_eq_true_2. }
  simpl. do 3 (split; [done|]). split; [exact Hn|].
  unfold assign_vil. rewrite bool_decide_eq_false_2 by (intros (? & ?); by destruct Hok).
  rewrite Hs. unfold vil_view. by rewrite bool_decide_eq_true_2.
Qed.

Lemma assign_vil_wrapper_matches_witness :
  handle_in [] default_ctor /\ (1 = 1 \/ nplanes grey_vil = 1) /\
  exists h1 v1 w,
    set_size Fundamental [] default_ctor (ni grey_vil) (nj grey_vil)
      (if decide (1 = 1) then nplanes grey_vil else 1) = Some (h1, v1) /\
    cols v1 = ni grey_vil /\ rows v1 = nj grey_vil /\
    vil_view 1 v1 = inr w /\
    top_left_ptr w = m_origin v1 /\
    ni w = ni grey_vil /\ nj w = nj grey_vil /\ nplanes w = nplanes grey_vil /\
    assign_vil 1 (fun h _ _ => Some h) Fundamental [] default_ctor grey_vil
    = match (fun (h : heap) (_ _ : vil_image_view) => Some h) h1 grey_vil w with
      | Some h2 => Return h2 v1
      | None => Undefined
      end.
Proof.
  assert (Hin : handle_in [] default_ctor) by (by intros b).
  assert (Hok : 1 = 1 \/ nplanes grey_vil = 1) by (by left).
  split; [exact Hin|]. split; [exact Hok|].
  apply (assign_vil_wrapper_matches 1 (fun h _ _ => Some h) Fundamental
           [] default_ctor grey_vil Hin); [unfold is_unsigned; simpl; lia ..| exact Hok].
Defined.

(** ** The viewer *)

(** X9. Pushing a list of points appends them, in order, after the
    points already held and keeps the colour; the two-argument
    constructor therefore holds exactly the given points. *)
Theorem push_back_list_appends {Vector2 Vector3 : Type}
    (pl : @PointList Vector2 Vector3) (pts : list Vector2) (c : Vector3) :
  points (push_back_list pl pts) = points pl ++ pts /\
  color (push_back_list pl pts) = color pl /\
  points (PointList_ctor_points pts c) = pts /\
  color (PointList_ctor_points pts c) = c.
Proof.
  assert (H : forall (q : @PointList Vector2 Vector3),
            points (push_back_list q pts) = points q ++ pts /\
            color (push_back_list q pts) = color q).
  { induction pts as [|pt rest IH]; intros q; simpl.
    - by rewrite app_nil_r.
    - destruct (IH (push_back q pt)) as [-> ->]. unfold points, color. simpl.
      by rewrite <- app_assoc. }
  destruct (H pl) as [-> ->]. do 2 (split; [done|]).
  unfold PointList_ctor_points. by destruct (H (PointList_ctor c)) as [-> ->].
Qed.

(** X10. The cache size in bytes is [cache_size * 2^20] reduced modulo
    2^32: it is the requested number of megabytes exactly when that is
    below 4096, and only the megabytes modulo 4096 otherwise. *)
Theorem cache_bytes_wraps cache_size :
  is_unsigned cache_size ->
  cache_bytes cache_size = (cache_size mod 4096) * 1048576 /\
  (cache_bytes cache_size = cache_size * 1048576 <-> cache_size < 4096).
Proof.
  intros Hc. unfold is_unsigned in Hc.
  assert (E : cache_bytes cache_size = (cache_size mod 4096) * 1048576).
  { unfold cache_bytes. rewrite umul3.
    replace (cache_size * 1024 * 1024) with (cache_size * 1048576) by lia.
    change (2 ^ 32) with (4096 * 1048576).
    by rewrite Z.mul_mod_distr_r by lia. }
  split; [exact E|]. rewrite E.
  pose proof (Z.mod_pos_bound cache_size 4096 ltac:(lia)) as Hm.
  split.
  - intros H. assert (cache_size mod 4096 = cache_size) by lia. lia.
  - intros H. by rewrite Z.mod_small by lia.
Qed.

Lemma cache_bytes_wraps_witness :
  is_unsigned 1000 /\
  cache_bytes 1000 = (1000 mod 4096) * 1048576 /\
  (cache_bytes 1000 = 1000 * 1048576 <-> 1000 < 4096).
Proof.
  assert (H : is_unsigned 1000) by (unfold is_unsigned; lia).
  split; [exact H|]. exact (cache_bytes_wraps 1000 H).
Defined.

(** ** Rasterizing into a view of the invariant shape *)

Lemma heap_get_lookup_eq (h h' : heap) k : h' !! k = h !! k -> heap_get h' k = heap_get h k.
Proof. unfold heap_get. by intros ->. Qed.

(** With no coordinate in the extent no loop body runs. *)
Lemma rasterize_empty P h v :
  (forall c r p, ~ in_extent v c r p) -> rasterize P h v = Some h.
Proof.
  intros Hno. unfold rasterize.
  apply for_each_id. intros p Hp.
  apply for_each_id. intros r Hr.
  apply for_each_id. intros c Hc.
  destruct (Hno c r p). unfold in_extent, planes, rows, cols in *. lia.
Qed.

Lemma rasterize_into_view P f h1 v1 :
  view_inv h1 v1 ->
  m_cols v1 * m_rows v1 * m_planes v1 < 2 ^ 32 ->
  (forall h' : heap,
     (forall b', m_data v1 <> Some b' -> h' !! b' = h1 !! b') ->
     forall c r p, in_extent v1 c r p -> p_eval P h' c r p = Some (f c r p)) ->
  exists h2,
    rasterize P h1 v1 = Some h2 /\
    (forall b', m_data v1 <> Some b' -> h2 !! b' = h1 !! b') /\
    addressable h2 v1 /\
    forall c r p, in_extent v1 c r p ->
      load h2 (operator3 v1 c r p) = Some (f c r p).
Proof.
  intros Hv Hsmall Hind.
  pose proof (view_inv_addressable h1 v1 Hv Hsmall) as Ha.
  destruct (m_data v1) as [b|] eqn:Hd.
  - destruct (rasterize_canonical P f h1 v1 b) as (h2 & Hr & Hfr & Hlen & Hval).
    { destruct Hv as (Hc & Hr & Hp & _). unfold is_unsigned in *. lia. }
    { intros c r p Hce.
      destruct (view_inv_layout h1 v1 c r p Hv Hsmall Hce) as (k & blk & Hk & Hop & Hb & Hl).
      assert (k = b) by congruence. subst k. eauto. }
    { intros h' Hh'. apply Hind. intros b' Hb'. apply Hh'. congruence. }
    exists h2. split; [done|]. split.
    { intros b' Hb'. apply Hfr. congruence. }
    split; [|done]. revert Ha. apply addressable_ext.
    intros k Hk. rewrite Hd in Hk. by injection Hk as <-.
  - assert (Hno : forall c r p, ~ in_extent v1 c r p).
    { intros c r p Hce. destruct (Ha c r p Hce) as (b & ? & ? & Hb & _). congruence. }
    exists h1. split; [by apply rasterize_empty|]. split; [done|]. split; [done|].
    intros c r p Hce. by destruct (Hno c r p).
Qed.

(** X11. The const [operator=] never resizes: it fills the extent of
    the destination, whatever extent the source reports, leaves every
    block but the destination's untouched, and afterwards each pixel of
    the destination holds the source's value at its coordinate. *)
Theorem assign_const_fills h v P f :
  view_inv h v ->
  m_cols v * m_rows v * m_planes v < 2 ^ 32 ->
  (forall h' : heap,
     (forall b', m_data v <> Some b' -> h' !! b' = h !! b') ->
     forall c r p, in_extent v c r p -> p_eval P h' c r p = Some (f c r p)) ->
  exists h',
    assign_const h v P = Some h' /\
    (forall b', m_data v <> Some b' -> h' !! b' = h !! b') /\
    addressable h' v /\
    forall c r p, in_extent v c r p ->
      load h' (operator3 v c r p) = Some (f c r p).
Proof. intros Hv Hsmall Hind. by apply rasterize_into_view. Qed.

Lemma assign_const_fills_witness :
  view_inv image43_heap image43 /\
  (p_cols ramp32 <> m_cols image43) /\
  exists h',
    assign_const image43_heap image43 ramp32 = Some h' /\
    (forall b', m_data image43 <> Some b' -> h' !! b' = image43_heap !! b') /\
    addressable h' image43 /\
    forall c r p, in_extent image43 c r p ->
      load h' (operator3 image43 c r p) = Some (Val (c + 10 * r)).
Proof.
  split; [apply image43_view_inv|]. split; [simpl; lia|].
  apply (assign_const_fills image43_heap image43 ramp32 (fun c r _ => Val (c + 10 * r))
           image43_view_inv); [simpl; lia|].
  intros h' _ c r p _. reflexivity.
Defined.

(** ** Assignment between views and its frame *)



Lemma image43_mirrored_addressable : addressable image43_shared_heap image43_mirrored.
Proof.
  intros c r p (Hc & Hr & Hp). simpl in Hc, Hr, Hp.
  exists 0%nat, (11 - c - 4 * r), (Block 2 (<[6%nat := Val 7]> (replicate 12 (Val 0)))).
  split; [reflexivity|]. split.
  { unfold operator3. simpl. f_equal. lia. }
  split; [reflexivity|]. simpl. lia.
Qed.


(** X13. Assignment from a producer writes only into the buffer of the
    view assigned to: a view [w] holding any other buffer stays
    addressable and reads the same value at each of its coordinates. *)
Theorem assign_leaves_other_views T h v P f w :
  view_inv h v ->
  is_unsigned (p_cols P) -> is_unsigned (p_rows P) -> is_unsigned (p_planes P) ->
  p_cols P * p_rows P * p_planes P < 2 ^ 32 ->
  independent_of P h v f ->
  addressable h w ->
  (forall k, m_data w = Some k -> m_data v <> Some k) ->
  exists h' v',
    assign T h v P = Some (h', v') /\
    addressable h' w /\
    forall c r p, in_extent w c r p ->
      load h' (operator3 w c r p) = load h (operator3 w c r p).
Proof.
  intros Hv Hc Hr Hp Hsmall Hind Haw Hdis.
  assert (Hin : handle_in h v) by (by apply owns_handle_in, view_inv_owns).
  destruct (set_size_total T h v (p_cols P) (p_rows P) (p_planes P) Hin)
    as (h1 & v1 & Hs).
  pose proof (set_size_view_inv _ _ _ _ _ _ _ _ Hv Hc Hr Hp Hs) as Hv1.
  destruct (set_size_frame _ _ _ _ _ _ _ _ Hin Hs) as (Hfr & Hsink & Ec & Er & Ep).
  unfold cols, rows, planes in Ec, Er, Ep.
  assert (Hnew : forall b, (b < length h)%nat -> m_data v <> Some b ->
            m_data v1 <> Some b).
  { intros b Hlt Hb Hb1. destruct (Hsink b Hb1) as [?|E]; [done|lia]. }
  destruct (rasterize_into_view P f h1 v1 Hv1) as (h2 & Hras & Hfr2 & _ & _).
  { by rewrite Ec, Er, Ep. }
  { intros h' Hh' c r p (Hx & Hy & Hz).
    rewrite Ec in Hx. rewrite Er in Hy. rewrite Ep in Hz.
    apply Hind; try done. intros b Hlt Hb.
    rewrite <- (Hfr b Hlt Hb). apply Hh'. by apply Hnew. }
  exists h2, v1. split.
  { unfold assign. rewrite Hs. simpl. by rewrite Hras. }
  assert (Hget : forall k blk, m_data w = Some k -> heap_get h k = Some blk ->
            heap_get h2 k = Some blk).
  { intros k blk Hk Hblk.
    assert (Hlt : (k < length h)%nat) by (by eapply heap_get_lt).
    rewrite (heap_get_lookup_eq _ _ _ (Hfr2 k (Hnew k Hlt (Hdis k Hk)))).
    by rewrite (heap_get_lookup_eq _ _ _ (Hfr k Hlt (Hdis k Hk))). }
  split.
  - intros c r p Hce.
    destruct (Haw c r p Hce) as (k & off & blk & Hk & Hop & Hblk & Hoff).
    exists k, off, blk. do 2 (split; [done|]). split; [by apply Hget|done].
  - intros c r p Hce.
    destruct (Haw c r p Hce) as (k & off & blk & Hk & -> & Hblk & _).
    apply load_ext. unfold cells_of. by rewrite (Hget k blk Hk Hblk), Hblk.
Qed.

Lemma assign_leaves_other_views_witness :
  view_inv image43_shared_heap default_ctor /\
  independent_of ramp32 image43_shared_heap default_ctor (fun c r _ => Val (c + 10 * r)) /\
  addressable image43_shared_heap image43_mirrored /\
  exists h' v',
    assign Fundamental image43_shared_heap default_ctor ramp32 = Some (h', v') /\
    addressable h' image43_mirrored /\
    forall c r p, in_extent image43_mirrored c r p ->
      load h' (operator3 image43_mirrored c r p)
      = load image43_shared_heap (operator3 image43_mirrored c r p).
Proof.
  assert (Hv : view_inv image43_shared_heap default_ctor) by apply default_ctor_view_inv.
  assert (Hi : independent_of ramp32 image43_shared_heap default_ctor
                 (fun c r _ => Val (c + 10 * r))).
  { intros h' _ c r p _ _ _. reflexivity. }
  split; [exact Hv|]. split; [exact Hi|].
  split; [exact image43_mirrored_addressable|].
  apply (assign_leaves_other_views Fundamental image43_shared_heap default_ctor ramp32
           (fun c r _ => Val (c + 10 * r)) image43_mirrored Hv);
    [unfold is_unsigned; simpl; lia ..| simpl; lia | exact Hi
    | exact image43_mirrored_addressable | by intros k _].
Defined.

(** ** The shape of every view *)

Lemma view_inv_sa_assign h lhs v :
  view_inv h v -> view_inv (sa_assign h lhs (m_data v)) v.
Proof.
  intros (Hc & Hr & Hp & Ho & Hs & Hd). do 5 (split; [done|]).
  destruct (m_data v) as [b|] eqn:Hb; [|done].
  destruct Hd as (blk & Hblk & Hcnt & Hlen & Hpos).
  destruct (cells_of_sa_assign h lhs b blk Hblk Hcnt) as (blk' & Hg & Hcs & Hcnt').
  exists blk'. rewrite Hcs. auto.
Qed.

(** X14. The operations keep every view in one shape: its origin is
    the start of the buffer it owns (null without a buffer), the buffer
    has [cols*rows*planes mod 2^32] elements and at least one owner, and
    the strides are 1, [cols] and [rows*cols mod 2^32] unless the extent
    is 0x0x0.  The default constructor establishes the shape; [set_size],
    copy construction, copy assignment and [reset] keep it, for the view
    produced and for the view copied. *)
Theorem api_keeps_view_shape T h v :
  view_inv h v ->
  view_inv h default_ctor /\
  (forall c r p h' v',
     is_unsigned c -> is_unsigned r -> is_unsigned p ->
     set_size T h v c r p = Some (h', v') -> view_inv h' v') /\
  (forall h' v', copy_ctor h v = (h', v') -> view_inv h' v' /\ view_inv h' v) /\
  (forall w h' w', copy_assign h w v = (h', w') -> view_inv h' w' /\ view_inv h' v) /\
  (forall h' v', reset h v = (h', v') -> view_inv h' v').
Proof.
  intros Hv. split; [apply default_ctor_view_inv|]. split; [|split; [|split]].
  - intros c r p h' v' Hc Hr Hp Hs.
    exact (set_size_view_inv _ _ _ _ _ _ _ _ Hv Hc Hr Hp Hs).
  - intros h' v' Hcp. exact (copy_ctor_view_inv _ _ _ _ Hv Hcp).
  - intros w h' w'. rewrite copy_assign_eq. intros [= <- <-].
    split; by apply view_inv_sa_assign.
  - intros h' v' [= <- <-]. apply default_ctor_view_inv.
Qed.

Lemma api_keeps_view_shape_witness :
  view_inv image43_heap image43 /\
  view_inv image43_heap default_ctor /\
  (forall c r p h' v',
     is_unsigned c -> is_unsigned r -> is_unsigned p ->
     set_size Fundamental image43_heap image43 c r p = Some (h', v') -> view_inv h' v') /\
  (forall h' v', copy_ctor image43_heap image43 = (h', v') ->
     view_inv h' v' /\ view_inv h' image43) /\
  (forall w h' w', copy_assign image43_heap w image43 = (h', w') ->
     view_inv h' w' /\ view_inv h' image43) /\
  (forall h' v', reset image43_heap image43 = (h', v') -> view_inv h' v').
Proof.
  split; [apply image43_view_inv|].
  exact (api_keeps_view_shape Fundamental image43_heap image43 image43_view_inv).
Defined.

(** ** The VIL view of an image *)

(** X15. [vil_view] refuses exactly the images that have several planes
    of multi-channel pixels.  Otherwise its steps address the same
    storage as [operator()]: with one channel, plane [p] of pixel (c,r)
    lies at the pixel's own offset; with [k] channels, channel [ch] of
    pixel (c,r) lies [ch] channel elements after [k] times the pixel's
    offset. *)
Theorem vil_view_addressing channels v :
  (vil_view channels v = inl ArgumentErr <-> m_planes v <> 1 /\ channels <> 1) /\
  forall w, vil_view channels v = inr w ->
    top_left_ptr w = m_origin v /\ ni w = m_cols v /\ nj w = m_rows v /\
    (channels = 1 ->
       forall c r p,
         c * istep w + r * jstep w + p * planestep w
         = c * m_cstride v + r * m_rstride v + p * m_pstride v) /\
    (channels <> 1 ->
       forall c r ch,
         c * istep w + r * jstep w + ch * planestep w
         = channels * (c * m_cstride v + r * m_rstride v) + ch).
Proof.
  unfold vil_view. case_bool_decide as Hok; split.
  - split; [done|]. intros (? & ?). by destruct Hok.
  - intros w [= <-]. simpl. do 3 (split; [done|]). split.
    + intros ->. rewrite decide_True by done. intros c r p. lia.
    + intros Hne. rewrite decide_False by done. intros c r ch. lia.
  - split; [|done]. intros _. split; intros ?; apply Hok; auto.
  - intros w [=].
Qed.
